(** * The autonomy "computation" lifecycle of the Juggernaut IDV demo backend

    A shallow embedding of [AutonomyController]
    (backend/src/controllers/autonomy.controller.ts): the in-memory
    [computations] map, the [setTimeout] completion callback armed by
    [triggerRecomputation], and the handlers [getComputationStatus],
    [getComputationResults], [cancelComputation], [getComputationHistory],
    [scheduleComputation] and [getMetrics].

    Each handler is modelled as a method call on the controller object
    ([this] is [autonomyController]; autonomy.routes.ts hands the methods to
    the router unbound, which is outside this model); the handlers are
    [async] functions without an [await], so each runs to its response in
    one turn of the event loop.

    What the handlers read from the outside world is passed in explicitly:
    the value of [uuidv4()], of [new Date()] (milliseconds since the epoch)
    and of [Math.random()].  [Math.random() * 0.2 + 0.8] is computed over the
    rationals, an idealisation of the IEEE doubles of the source. *)

From Stdlib Require Import List String ZArith QArith Bool Lia Lqa.
Import ListNotations.

Local Open Scope string_scope.
Local Open Scope Z_scope.
Local Open Scope list_scope.

(** ** JavaScript [Map<string, V>]

    A [Map] enumerates its entries in insertion order, and [set] on a key
    that is already present replaces the value and keeps the entry's place.
    The stored values are objects that the handlers mutate through the
    reference [get] returns; no other reference to them survives a handler,
    so a mutation is a [set] at the same key. *)
Module JsMap.
Section Defs.
Variable V : Type.

Definition t := list (string * V).

Definition empty : t := [].

Fixpoint get (m : t) (k : string) : option V :=
  match m with
  | [] => None
  | (k', v) :: m' => if String.eqb k' k then Some v else get m' k
  end.

Fixpoint set (m : t) (k : string) (v : V) : t :=
  match m with
  | [] => [(k, v)]
  | (k', v') :: m' =>
      if String.eqb k' k then (k', v) :: m' else (k', v') :: set m' k v
  end.

Definition keys (m : t) : list string := map fst m.

(** [Array.from(m.values())] *)
Definition values (m : t) : list V := map snd m.

Definition size (m : t) : Z := Z.of_nat (List.length m).
End Defs.

Arguments empty {V}.
Arguments get {V} m k.
Arguments set {V} m k v.
Arguments keys {V} m.
Arguments values {V} m.
Arguments size {V} m.
End JsMap.

(** ** Data model *)

(** [new Date()], as milliseconds since the epoch. *)
Definition Date := Z.

(** The status strings: ['running'], ['completed'] and ['cancelled'] are the
    ones the controller assigns, ['failed'] is counted by [getMetrics], and
    the route documentation and the Joi schema of the history query list all
    five. *)
Inductive Status := pending | running | completed | failed | cancelled.

Definition status_str (st : Status) : string :=
  match st with
  | pending => "pending"
  | running => "running"
  | completed => "completed"
  | failed => "failed"
  | cancelled => "cancelled"
  end.

Definition Status_eqb (a b : Status) : bool :=
  match a, b with
  | pending, pending | running, running | completed, completed
  | failed, failed | cancelled, cancelled => true
  | _, _ => false
  end.

(** The terminal states of the glossary. *)
Definition terminal (st : Status) : bool :=
  match st with
  | completed | failed | cancelled => true
  | pending | running => false
  end.

(** [req.body.parameters] of a recompute request (autonomy.validation.ts). *)
Module Parameters.
Record t := {
  algorithm : option string;
  iterations : option Z;
  threshold : option Q;
  optimizationLevel : option string;
  parallelism : option Z
}.
End Parameters.

(** [req.body.options] of a recompute request; stored, never read. *)
Module Options.
Record t := {
  priority : string;
  timeout : option Z;
  retryOnFailure : bool;
  maxRetries : Z;
  notifyOnComplete : bool;
  webhookUrl : option string
}.
End Options.

(** [comp.results], as the completion callback builds it. *)
Module Results.
Record t := {
  accuracy : Q;
  iterations : Z;
  convergence : bool
}.
End Results.

(** A stored computation.  [completedAt], [results] and [cancelledAt] are
    absent from the object literal of [triggerRecomputation] and added by
    later assignments; a property that was never assigned reads as
    [undefined], here [None].  No statement of the controller assigns
    [error]. *)
Module Computation.
Record t := {
  id : string;
  datasetId : string;
  status : Status;
  startedAt : Date;
  parameters : option Parameters.t;
  options : option Options.t;
  progress : Z;
  completedAt : option Date;
  results : option Results.t;
  cancelledAt : option Date;
  error : option string
}.
End Computation.

(** An entry of the [schedules] map. *)
Module ScheduleEntry.
Record t := {
  id : string;
  datasetId : string;
  schedule : string;
  parameters : option Parameters.t;
  enabled : bool;
  createdAt : Date;
  nextRun : Date
}.
End ScheduleEntry.

(** A pending [setTimeout] callback of [triggerRecomputation]: the closure
    holds [computation.id] and [parameters], and is due 5000 ms after it was
    armed. *)
Module Timer.
Record t := {
  id : string;
  parameters : option Parameters.t;
  due : Date
}.
End Timer.

(** The controller's two maps, and the callbacks the event loop still holds. *)
Record State := {
  computations : JsMap.t Computation.t;
  schedules : JsMap.t ScheduleEntry.t;
  timers : list Timer.t
}.

Definition init : State :=
  {| computations := JsMap.empty; schedules := JsMap.empty; timers := [] |}.

(** ** Requests and responses *)

Record RecomputeBody := {
  rb_datasetId : string;
  rb_parameters : option Parameters.t;
  rb_options : option Options.t
}.

Record ScheduleBody := {
  sb_datasetId : string;
  sb_schedule : string;
  sb_parameters : option Parameters.t
}.

(** What [Number(x)] yields for a query value, when it is an integer or
    [NaN]. *)
Inductive JsNum := NaN | Num (z : Z).

(** [req.query] of the history route: [page] and [limit] as [Number] reads
    them, [None] when the key is absent (the destructuring default applies);
    [status] as the string of the query. *)
Record HistoryQuery := {
  q_page : option JsNum;
  q_limit : option JsNum;
  q_status : option string
}.

Record Metadata := {
  md_computationId : string;
  md_datasetId : string;
  md_completedAt : option Date
}.

Record Pagination := {
  pg_page : JsNum;
  pg_limit : JsNum;
  pg_total : Z
}.

Module Metrics.
Record t := {
  total : Z;
  running : Z;
  completed : Z;
  failed : Z;
  cancelled : Z;
  averageComputationTime : Z;
  successRate : Q;
  activeSchedules : Z
}.
End Metrics.

(** The JSON bodies the handlers send, one constructor per shape; [success]
    is [false] in [ErrorBody] and [InProgressBody] and [true] elsewhere. *)
Inductive Body :=
| ErrorBody (error : string)
| InitiatedBody (message : string) (id : string) (status : Status)
| StatusBody (status : Status) (progress : Z) (startedAt : Date)
    (completedAt : option Date)
| InProgressBody (message : string) (status : Status) (progress : Z)
| ResultsBody (results : option Results.t) (metadata : Metadata)
| CancelledBody (message : string) (id : string) (status : Status)
| HistoryBody (computations : list Computation.t) (pagination : Pagination)
| ScheduledBody (schedule : ScheduleEntry.t)
| MetricsBody (metrics : Metrics.t).

Record Response := { code : Z; body : Body }.

(** Whether the JSON body has a [results] key. *)
Definition has_results_field (b : Body) : bool :=
  match b with
  | ResultsBody _ _ => true
  | _ => false
  end.

Definition notFound : Response :=
  {| code := 404; body := ErrorBody "Computation not found" |}.

(** ** The handlers *)

Definition with_computations (s : State) (m : JsMap.t Computation.t) : State :=
  {| computations := m; schedules := schedules s; timers := timers s |}.

(** [triggerRecomputation]: [uuid] is the value of [uuidv4()], [now] of
    [new Date()]. *)
Definition triggerRecomputation (s : State) (uuid : string) (now : Date)
    (b : RecomputeBody) : State * Response :=
  let computation :=
    {| Computation.id := uuid;
       Computation.datasetId := rb_datasetId b;
       Computation.status := running;
       Computation.startedAt := now;
       Computation.parameters := rb_parameters b;
       Computation.options := rb_options b;
       Computation.progress := 0;
       Computation.completedAt := None;
       Computation.results := None;
       Computation.cancelledAt := None;
       Computation.error := None |} in
  let timer :=
    {| Timer.id := Computation.id computation;
       Timer.parameters := rb_parameters b;
       Timer.due := now + 5000 |} in
  ({| computations := JsMap.set (computations s) (Computation.id computation) computation;
      schedules := schedules s;
      timers := timers s ++ [timer] |},
   {| code := 202;
      body := InitiatedBody "Computation initiated"
                (Computation.id computation) (Computation.status computation) |}).

(** [parameters?.iterations || 100]: [0] is falsy. *)
Definition iterations_or_default (p : option Parameters.t) : Z :=
  match p with
  | Some p' =>
      match Parameters.iterations p' with
      | Some n => if n =? 0 then 100 else n
      | None => 100
      end
  | None => 100
  end.

(** The body of the [setTimeout] callback: [rnd] is the value of
    [Math.random()]. *)
Definition completionCallback (s : State) (t : Timer.t) (now : Date) (rnd : Q)
    : State :=
  match JsMap.get (computations s) (Timer.id t) with
  | Some comp =>
      with_computations s
        (JsMap.set (computations s) (Timer.id t)
           {| Computation.id := Computation.id comp;
              Computation.datasetId := Computation.datasetId comp;
              Computation.status := completed;
              Computation.startedAt := Computation.startedAt comp;
              Computation.parameters := Computation.parameters comp;
              Computation.options := Computation.options comp;
              Computation.progress := 100;
              Computation.completedAt := Some now;
              Computation.results :=
                Some {| Results.accuracy := (rnd * (2 # 10) + (8 # 10))%Q;
                        Results.iterations := iterations_or_default (Timer.parameters t);
                        Results.convergence := true |};
              Computation.cancelledAt := Computation.cancelledAt comp;
              Computation.error := Computation.error comp |})
  | None => s
  end.

Definition getComputationStatus (s : State) (computationId : string) : Response :=
  match JsMap.get (computations s) computationId with
  | None => notFound
  | Some computation =>
      {| code := 200;
         body := StatusBody (Computation.status computation)
                   (Computation.progress computation)
                   (Computation.startedAt computation)
                   (Computation.completedAt computation) |}
  end.

Definition getComputationResults (s : State) (computationId : string) : Response :=
  match JsMap.get (computations s) computationId with
  | None => notFound
  | Some computation =>
      if negb (Status_eqb (Computation.status computation) completed) then
        {| code := 202;
           body := InProgressBody "Computation still in progress"
                     (Computation.status computation)
                     (Computation.progress computation) |}
      else
        {| code := 200;
           body := ResultsBody (Computation.results computation)
                     {| md_computationId := Computation.id computation;
                        md_datasetId := Computation.datasetId computation;
                        md_completedAt := Computation.completedAt computation |} |}
  end.

Definition cancelComputation (s : State) (computationId : string) (now : Date)
    : State * Response :=
  match JsMap.get (computations s) computationId with
  | None => (s, notFound)
  | Some computation =>
      (with_computations s
         (JsMap.set (computations s) computationId
            {| Computation.id := Computation.id computation;
               Computation.datasetId := Computation.datasetId computation;
               Computation.status := cancelled;
               Computation.startedAt := Computation.startedAt computation;
               Computation.parameters := Computation.parameters computation;
               Computation.options := Computation.options computation;
               Computation.progress := Computation.progress computation;
               Computation.completedAt := Computation.completedAt computation;
               Computation.results := Computation.results computation;
               Computation.cancelledAt := Some now;
               Computation.error := Computation.error computation |}),
       {| code := 200;
          body := CancelledBody "Computation cancelled"
                    (Computation.id computation) cancelled |})
  end.

(** [l.slice(0, e)]: a [NaN] end counts as [0], a negative end counts from
    the end of the array, and the result is clamped to the array. *)
Definition slice0 {A : Type} (l : list A) (e : JsNum) : list A :=
  let len := Z.of_nat (List.length l) in
  let rel := match e with NaN => 0 | Num z => z end in
  let final := if rel <? 0 then Z.max (len + rel) 0 else Z.min rel len in
  firstn (Z.to_nat final) l.

(** Truthiness of a string: every string but the empty one is truthy. *)
Definition truthy (f : string) : bool := negb (String.eqb f "").

(** [c => c.status === status] *)
Definition status_is (f : string) (c : Computation.t) : bool :=
  String.eqb (status_str (Computation.status c)) f.

Definition getComputationHistory (s : State) (q : HistoryQuery) : Response :=
  let page := match q_page q with Some p => p | None => Num 1 end in
  let limit := match q_limit q with Some l => l | None => Num 20 end in
  let all := JsMap.values (computations s) in
  let filtered :=
    match q_status q with
    | Some f => if truthy f then filter (status_is f) all else all
    | None => all
    end in
  {| code := 200;
     body := HistoryBody (slice0 filtered limit)
               {| pg_page := page;
                  pg_limit := limit;
                  pg_total := Z.of_nat (List.length filtered) |} |}.

(** [scheduleComputation]: [uuid] is the value of [uuidv4()], [now] of
    [new Date()] for [createdAt], and [later] of the [Date.now()] read after
    it for [nextRun]. *)
Definition scheduleComputation (s : State) (uuid : string) (now later : Date)
    (b : ScheduleBody) : State * Response :=
  let scheduleEntry :=
    {| ScheduleEntry.id := uuid;
       ScheduleEntry.datasetId := sb_datasetId b;
       ScheduleEntry.schedule := sb_schedule b;
       ScheduleEntry.parameters := sb_parameters b;
       ScheduleEntry.enabled := true;
       ScheduleEntry.createdAt := now;
       ScheduleEntry.nextRun := later + 3600000 |} in
  ({| computations := computations s;
      schedules := JsMap.set (schedules s) uuid scheduleEntry;
      timers := timers s |},
   {| code := 201; body := ScheduledBody scheduleEntry |}).

(** [computations.filter(c => c.status === st).length] *)
Definition count_status (st : Status) (l : list Computation.t) : Z :=
  Z.of_nat (List.length (filter (status_is (status_str st)) l)).

Definition metricsOf (s : State) : Metrics.t :=
  let all := JsMap.values (computations s) in
  {| Metrics.total := Z.of_nat (List.length all);
     Metrics.running := count_status running all;
     Metrics.completed := count_status completed all;
     Metrics.failed := count_status failed all;
     Metrics.cancelled := count_status cancelled all;
     Metrics.averageComputationTime := 5234;
     Metrics.successRate := 92 # 100;
     Metrics.activeSchedules := JsMap.size (schedules s) |}.

Definition getMetrics (s : State) : Response :=
  {| code := 200; body := MetricsBody (metricsOf s) |}.

(** ** The event loop

    One turn of the event loop either runs a handler on a request or runs a
    pending completion callback.  [uuidv4()] never returns an identifier
    twice, a callback does not run before it is due, and [Math.random()]
    lies in [0, 1): a turn that breaks one of these is not a turn of the
    program and [step] refuses it. *)
Inductive Event :=
| Recompute (uuid : string) (now : Date) (b : RecomputeBody)
| TimerFires (k : nat) (now : Date) (rnd : Q)
| GetStatus (computationId : string)
| GetResults (computationId : string)
| Cancel (computationId : string) (now : Date)
| History (q : HistoryQuery)
| Schedule (uuid : string) (now later : Date) (b : ScheduleBody)
| GetMetrics.

Definition fresh {V : Type} (m : JsMap.t V) (k : string) : bool :=
  match JsMap.get m k with
  | None => true
  | Some _ => false
  end.

Definition unit_interval (rnd : Q) : bool :=
  Qle_bool 0 rnd && negb (Qle_bool 1 rnd).

(** The pending callbacks without the [k]-th one. *)
Definition drop_timer (k : nat) (s : State) : State :=
  {| computations := computations s;
     schedules := schedules s;
     timers := firstn k (timers s) ++ skipn (S k) (timers s) |}.

Definition step (s : State) (e : Event) : option (State * option Response) :=
  match e with
  | Recompute uuid now b =>
      if fresh (computations s) uuid then
        let (s', r) := triggerRecomputation s uuid now b in Some (s', Some r)
      else None
  | TimerFires k now rnd =>
      match nth_error (timers s) k with
      | Some t =>
          if (Timer.due t <=? now) && unit_interval rnd then
            Some (completionCallback (drop_timer k s) t now rnd, None)
          else None
      | None => None
      end
  | GetStatus cid => Some (s, Some (getComputationStatus s cid))
  | GetResults cid => Some (s, Some (getComputationResults s cid))
  | Cancel cid now =>
      let (s', r) := cancelComputation s cid now in Some (s', Some r)
  | History q => Some (s, Some (getComputationHistory s q))
  | Schedule uuid now later b =>
      if fresh (schedules s) uuid then
        let (s', r) := scheduleComputation s uuid now later b in
        Some (s', Some r)
      else None
  | GetMetrics => Some (s, Some (getMetrics s))
  end.

Fixpoint run (s : State) (evs : list Event) : option State :=
  match evs with
  | [] => Some s
  | e :: evs' =>
      match step s e with
      | Some (s', _) => run s' evs'
      | None => None
      end
  end.

Definition reachable (s : State) : Prop := exists evs, run init evs = Some s.

(** What a listing shows of a job: status and the two terminal timestamps. *)
Definition lifecycle (c : Computation.t) : Status * option Date * option Date :=
  (Computation.status c, Computation.completedAt c, Computation.cancelledAt c).

(** [firstn (lim) (skipn ((p - 1) * lim) l)]: the [p]-th page of [l], pages
    numbered from 1, as the wording of section 4.2 of the specification has
    it.  The controller has no such function; this one is only compared with
    [getComputationHistory]. *)
Definition spec_page {A : Type} (l : list A) (p lim : nat) : list A :=
  firstn lim (skipn ((p - 1) * lim) l).

(** A recompute request names no [iterations]. *)
Definition no_iterations (p : option Parameters.t) : bool :=
  match p with
  | Some p' => match Parameters.iterations p' with Some _ => false | None => true end
  | None => true
  end.

(** ** Invariants of the reachable states *)

(** The statuses the controller assigns. *)
Definition assigned_status (c : Computation.t) : Prop :=
  Computation.status c = running \/ Computation.status c = completed
  \/ Computation.status c = cancelled.

(** What holds of an entry [(k, c)] of [computations]. *)
Definition job_ok (kc : string * Computation.t) : Prop :=
  let c := snd kc in
  Computation.id c = fst kc
  /\ assigned_status c
  /\ Computation.error c = None
  /\ (Computation.completedAt c = None <-> Computation.results c = None)
  /\ (Computation.status c = completed -> Computation.completedAt c <> None)
  /\ (Computation.status c = running ->
      Computation.completedAt c = None /\ Computation.cancelledAt c = None).

(** What holds of a pending callback: its job is stored, has not been
    completed, and carries the parameters the closure captured. *)
Definition timer_ok (m : JsMap.t Computation.t) (t : Timer.t) : Prop :=
  exists c, JsMap.get m (Timer.id t) = Some c
            /\ Computation.completedAt c = None
            /\ Computation.parameters c = Timer.parameters t.

Record Inv (s : State) : Prop := {
  inv_jobs : Forall job_ok (computations s);
  inv_nodup : NoDup (map Timer.id (timers s));
  inv_timers : Forall (timer_ok (computations s)) (timers s)
}.

(** The relation between a terminal job and what later turns make of it. *)
Definition settled (j j' : Computation.t) : Prop :=
  terminal (Computation.status j') = true
  /\ (forall d, Computation.completedAt j = Some d ->
                Computation.completedAt j' = Some d)
  /\ (Computation.cancelledAt j <> None -> Computation.cancelledAt j' <> None).

(** ** Sample requests and runs *)

(** The request of the scenario of section 8: [{datasetId: "d1"}]. *)
Definition d1_request : RecomputeBody :=
  {| rb_datasetId := "d1"; rb_parameters := None; rb_options := None |}.

Definition state_after (evs : list Event) : State :=
  match run init evs with
  | Some s => s
  | None => init
  end.

(** One job, submitted at time 0 and cancelled one second later, its
    callback still pending. *)
Definition cancelled_in_flight : State :=
  Eval cbv in state_after [Recompute "job-1" 0 d1_request; Cancel "job-1" 1000].

(** One job, submitted at time 0 and still running. *)
Definition one_running : State :=
  Eval cbv in state_after [Recompute "job-1" 0 d1_request].

(** One job, submitted at time 0 and completed by its callback. *)
Definition one_completed : State :=
  Eval cbv in state_after
    [Recompute "job-1" 0 d1_request; TimerFires 0 5000 (1 # 2)].

(** Three jobs, the second one completed. *)
Definition three_jobs : State :=
  Eval cbv in state_after
    [Recompute "job-1" 0 d1_request; Recompute "job-2" 10 d1_request;
     Recompute "job-3" 20 d1_request; TimerFires 1 5010 (1 # 2)].

(** The job of [one_completed]. *)
Definition completed_job : Computation.t :=
  {| Computation.id := "job-1";
     Computation.datasetId := "d1";
     Computation.status := completed;
     Computation.startedAt := 0;
     Computation.parameters := None;
     Computation.options := None;
     Computation.progress := 100;
     Computation.completedAt := Some 5000;
     Computation.results :=
       Some {| Results.accuracy := ((1 # 2) * (2 # 10) + (8 # 10))%Q;
               Results.iterations := 100;
               Results.convergence := true |};
     Computation.cancelledAt := None;
     Computation.error := None |}.

(** The job of [one_running]. *)
Definition running_job : Computation.t :=
  {| Computation.id := "job-1";
     Computation.datasetId := "d1";
     Computation.status := running;
     Computation.startedAt := 0;
     Computation.parameters := None;
     Computation.options := None;
     Computation.progress := 0;
     Computation.completedAt := None;
     Computation.results := None;
     Computation.cancelledAt := None;
     Computation.error := None |}.

(** [one_completed] after two cancel requests. *)
Definition cancelled_twice : State :=
  Eval cbv in state_after
    [Recompute "job-1" 0 d1_request; TimerFires 0 5000 (1 # 2);
     Cancel "job-1" 6000; Cancel "job-1" 7000].

(** The ids of the jobs a history response lists. *)
Definition history_ids (r : Response) : list string :=
  match body r with
  | HistoryBody jobs _ => map Computation.id jobs
  | _ => []
  end.

(** The jobs a history request with status filter [st] is about. *)
Definition with_status (st : option Status) (l : list Computation.t)
    : list Computation.t :=
  match st with
  | Some x => filter (fun c => Status_eqb (Computation.status c) x) l
  | None => l
  end.

(** ** Further invariants of the reachable states *)

(** Progress and results as the completion callback leaves them. *)
Definition job_shape (c : Computation.t) : Prop :=
  (Computation.completedAt c = None -> Computation.progress c = 0)
  /\ (Computation.completedAt c <> None -> Computation.progress c = 100)
  /\ (forall r, Computation.results c = Some r ->
        Results.convergence r = true
        /\ Results.iterations r = iterations_or_default (Computation.parameters c)
        /\ (8 # 10 <= Results.accuracy r)%Q /\ (Results.accuracy r <= 1)%Q).

(** A pending callback is due 5000 ms after its job was started. *)
Definition timer_due_ok (m : JsMap.t Computation.t) (t : Timer.t) : Prop :=
  exists c, JsMap.get m (Timer.id t) = Some c
            /\ Timer.due t = Computation.startedAt c + 5000.

(** A stored schedule, as [scheduleComputation] builds it. *)
Definition sched_ok (ke : string * ScheduleEntry.t) : Prop :=
  ScheduleEntry.id (snd ke) = fst ke
  /\ ScheduleEntry.enabled (snd ke) = true.

Record Inv2 (s : State) : Prop := {
  inv2_base : Inv s;
  inv2_keys : NoDup (JsMap.keys (computations s));
  inv2_shape : Forall (fun kc => job_shape (snd kc)) (computations s);
  inv2_due : Forall (timer_due_ok (computations s)) (timers s);
  inv2_pending :
    forall k c, JsMap.get (computations s) k = Some c ->
                Computation.completedAt c = None ->
                In k (map Timer.id (timers s));
  inv2_sched : Forall sched_ok (schedules s)
}.

(** The recompute requests of a run. *)
Definition submissions (evs : list Event) : list Event :=
  filter (fun e => match e with Recompute _ _ _ => true | _ => false end) evs.

(** The schedule requests of a run. *)
Definition schedulings (evs : list Event) : list Event :=
  filter (fun e => match e with Schedule _ _ _ _ => true | _ => false end) evs.

(** The jobs a history response lists. *)
Definition history_jobs (r : Response) : list Computation.t :=
  match body r with
  | HistoryBody jobs _ => jobs
  | _ => []
  end.

(** A job submitted with 250 iterations, completed by its callback. *)
Definition with_iterations : RecomputeBody :=
  {| rb_datasetId := "d2";
     rb_parameters :=
       Some {| Parameters.algorithm := None;
               Parameters.iterations := Some 250;
               Parameters.threshold := None;
               Parameters.optimizationLevel := None;
               Parameters.parallelism := None |};
     rb_options := None |}.

Definition completed_250 : State :=
  Eval cbv in state_after
    [Recompute "job-9" 0 with_iterations; TimerFires 0 5000 (1 # 4)].

Definition daily : ScheduleBody :=
  {| sb_datasetId := "d1"; sb_schedule := "0 0 * * *"; sb_parameters := None |}.

Definition daily_entry : ScheduleEntry.t :=
  {| ScheduleEntry.id := "sch-1";
     ScheduleEntry.datasetId := "d1";
     ScheduleEntry.schedule := "0 0 * * *";
     ScheduleEntry.parameters := None;
     ScheduleEntry.enabled := true;
     ScheduleEntry.createdAt := 50;
     ScheduleEntry.nextRun := 3600051 |}.

Definition one_scheduled : State :=
  Eval cbv in state_after [Schedule "sch-1" 50 51 daily].

(** What later turns keep of a stored job: the fields written once by
    [triggerRecomputation], and a progress that does not go down. *)
Definition kept (j j' : Computation.t) : Prop :=
  Computation.id j' = Computation.id j
  /\ Computation.datasetId j' = Computation.datasetId j
  /\ Computation.parameters j' = Computation.parameters j
  /\ Computation.options j' = Computation.options j
  /\ Computation.startedAt j' = Computation.startedAt j
  /\ Computation.progress j <= Computation.progress j'.

(** [pagination.total] of a history response. *)
Definition history_total (r : Response) : Z :=
  match body r with
  | HistoryBody _ pg => pg_total pg
  | _ => 0
  end.

(** ** The authentication middleware (backend/src/middleware/auth.ts)

    The middleware in front of the autonomy routes.  A middleware hands the
    request on ([next()]), hands an error to the error handler
    ([next(error)]), or throws.  [config.apiKeys] and [jwt.verify] are taken
    as given: the two configured keys are strings, and [jwt.verify] returns
    the decoded payload or throws [TokenExpiredError] or another
    [JsonWebTokenError].

    Every refusal in auth.ts is written [new UnauthorizedError(...)] or
    [new ForbiddenError(...)], and errorHandler.ts defines both names as arrow
    functions.  An arrow function cannot be constructed: the [new]
    expression throws a TypeError, and no [AppError] comes to exist. *)

(** [req.user] *)
Module ReqUser.
Record t := {
  id : string;
  email : string;
  role : string;
  permissions : list string
}.
End ReqUser.

(** [req.apiKey] *)
Module ReqApiKey.
Record t := {
  key : string;
  tier : string;
  permissions : list string
}.
End ReqApiKey.

(** What the middleware reads and writes of a request: the two credential
    headers, [req.user] and [req.apiKey]. *)
Record AuthRequest := {
  authorization : option string;
  x_api_key : option string;
  user : option ReqUser.t;
  apiKey : option ReqApiKey.t
}.

(** [config.apiKeys] *)
Record ApiKeysConfig := {
  masterKey : string;
  systemKey : string
}.

(** The payload [jwt.verify] decodes, as far as the middleware reads it. *)
Module Payload.
Record t := {
  id : string;
  email : string;
  role : string;
  permissions : option (list string)
}.
End Payload.

Inductive JwtResult :=
| Verified (decoded : Payload.t)
| TokenExpiredError
| JsonWebTokenError.

(** What is thrown in the middleware: the TypeError of a [new] on the arrow
    function [callee], or one of the two errors of [jwt.verify]. *)
Inductive Exn :=
| NotConstructor (callee : string)
| ExpiredExn
| JwtExn.

Inductive Outcome :=
| Next (req : AuthRequest)
| NextError (e : Exn).

(** How the promise of an [async] middleware settles: fulfilled after the
    call of [next] it made, or rejected without any call of [next]. *)
Inductive Settled :=
| Fulfilled (o : Outcome)
| Rejected (e : Exn).

(** How a synchronous middleware ends: it returns after the call of [next]
    it made, or it throws. *)
Inductive Returned :=
| Called (o : Outcome)
| Threw (e : Exn).

(** [!!h] for a header. *)
Definition present (h : option string) : bool :=
  match h with
  | Some v => truthy v
  | None => false
  end.

(** [h.startsWith('Bearer ') ? h.slice(7) : h] *)
Definition bearer_token (authHeader : string) : string :=
  if String.prefix "Bearer " authHeader
  then String.substring 7 (String.length authHeader - 7) authHeader
  else authHeader.

Definition with_user (req : AuthRequest) (u : ReqUser.t) : AuthRequest :=
  {| authorization := authorization req;
     x_api_key := x_api_key req;
     user := Some u;
     apiKey := apiKey req |}.

Definition with_apiKey (req : AuthRequest) (k : ReqApiKey.t) : AuthRequest :=
  {| authorization := authorization req;
     x_api_key := x_api_key req;
     user := user req;
     apiKey := Some k |}.

(** The [try] block of [authenticateJWT]: the request [next()] is called
    with, or what was thrown. *)
Definition authenticateJWT_try (verify : string -> JwtResult) (req : AuthRequest)
    : Exn + AuthRequest :=
  match authorization req with
  | None => inl (NotConstructor "UnauthorizedError")
  | Some authHeader =>
      if negb (truthy authHeader) then
        inl (NotConstructor "UnauthorizedError")
      else
        let token := bearer_token authHeader in
        if negb (truthy token) then
          inl (NotConstructor "UnauthorizedError")
        else
          match verify token with
          | Verified decoded =>
              inr (with_user req
                     {| ReqUser.id := Payload.id decoded;
                        ReqUser.email := Payload.email decoded;
                        ReqUser.role := Payload.role decoded;
                        ReqUser.permissions :=
                          match Payload.permissions decoded with
                          | Some ps => ps
                          | None => []
                          end |})
          | TokenExpiredError => inl ExpiredExn
          | JsonWebTokenError => inl JwtExn
          end
  end.

(** [authenticateJWT]: in the [catch] block the two branches for the errors
    of [jwt.verify] evaluate [new UnauthorizedError(...)], which throws
    inside the [catch], so the promise is rejected; any other error is
    handed to [next]. *)
Definition authenticateJWT (verify : string -> JwtResult) (req : AuthRequest)
    : Settled :=
  match authenticateJWT_try verify req with
  | inr req' => Fulfilled (Next req')
  | inl ExpiredExn => Rejected (NotConstructor "UnauthorizedError")
  | inl JwtExn => Rejected (NotConstructor "UnauthorizedError")
  | inl error => Fulfilled (NextError error)
  end.

(** The [try] block of [authenticateAPIKey]. *)
Definition authenticateAPIKey_try (cfg : ApiKeysConfig) (req : AuthRequest)
    : Exn + AuthRequest :=
  match x_api_key req with
  | None => inl (NotConstructor "UnauthorizedError")
  | Some k =>
      if negb (truthy k) then
        inl (NotConstructor "UnauthorizedError")
      else if String.eqb k (masterKey cfg) then
        inr (with_apiKey req
               {| ReqApiKey.key := k;
                  ReqApiKey.tier := "enterprise";
                  ReqApiKey.permissions := ["*"] |})
      else if String.eqb k (systemKey cfg) then
        inr (with_apiKey req
               {| ReqApiKey.key := k;
                  ReqApiKey.tier := "premium";
                  ReqApiKey.permissions := ["read"; "write"; "verify"] |})
      else inl (NotConstructor "UnauthorizedError")
  end.

Definition authenticateAPIKey (cfg : ApiKeysConfig) (req : AuthRequest) : Settled :=
  match authenticateAPIKey_try cfg req with
  | inr req' => Fulfilled (Next req')
  | inl error => Fulfilled (NextError error)
  end.

Definition authenticate (cfg : ApiKeysConfig) (verify : string -> JwtResult)
    (req : AuthRequest) : Settled :=
  let hasAuthHeader := present (authorization req) in
  let hasApiKey := present (x_api_key req) in
  if negb hasAuthHeader && negb hasApiKey then
    Rejected (NotConstructor "UnauthorizedError")
  else if hasApiKey then authenticateAPIKey cfg req
  else authenticateJWT verify req.

(** [a.includes(x)] *)
Definition includes (a : list string) (x : string) : bool :=
  existsb (String.eqb x) a.

(** [requirePermission(...permissions)]: both refusals evaluate a [new] on
    an arrow function as the argument of [next], so [next] is not called
    and the middleware throws. *)
Definition requirePermission (permissions : list string) (req : AuthRequest)
    : Returned :=
  match user req, apiKey req with
  | None, None => Threw (NotConstructor "UnauthorizedError")
  | _, _ =>
      let userPermissions :=
        match user req with Some u => ReqUser.permissions u | None => [] end in
      let apiKeyPermissions :=
        match apiKey req with Some k => ReqApiKey.permissions k | None => [] end in
      let allPermissions := userPermissions ++ apiKeyPermissions in
      if includes allPermissions "*" then Called (Next req)
      else
        let hasPermission :=
          existsb (fun permission => includes allPermissions permission)
                  permissions in
        if negb hasPermission then Threw (NotConstructor "ForbiddenError")
        else Called (Next req)
  end.

(** [try { await f(req, res, next) } catch (error) { next() }] *)
Definition await_or_next (p : Settled) (req : AuthRequest) : Settled :=
  match p with
  | Fulfilled o => Fulfilled o
  | Rejected _ => Fulfilled (Next req)
  end.

Definition optionalAuth (cfg : ApiKeysConfig) (verify : string -> JwtResult)
    (req : AuthRequest) : Settled :=
  let hasAuthHeader := present (authorization req) in
  let hasApiKey := present (x_api_key req) in
  if negb hasAuthHeader && negb hasApiKey then Fulfilled (Next req)
  else if hasApiKey then await_or_next (authenticateAPIKey cfg req) req
  else await_or_next (authenticateJWT verify req) req.

(** How the guards of a route end: the request reaches the handler, an
    error was handed to [next], the promise of [authenticate] was rejected
    (and [next] never called), or [requirePermission] threw. *)
Inductive Guarded :=
| Passed (req : AuthRequest)
| Refused (e : Exn)
| Unsettled (e : Exn)
| Crashed (e : Exn).

(** The guards of an autonomy route (autonomy.routes.ts): [authenticate],
    then, when it hands the request on, [requirePermission(...permissions)]. *)
Definition guard (cfg : ApiKeysConfig) (verify : string -> JwtResult)
    (permissions : list string) (req : AuthRequest) : Guarded :=
  match authenticate cfg verify req with
  | Fulfilled (Next req') =>
      match requirePermission permissions req' with
      | Called (Next req'') => Passed req''
      | Called (NextError e) => Refused e
      | Threw e => Crashed e
      end
  | Fulfilled (NextError e) => Refused e
  | Rejected e => Unsettled e
  end.

(** A request that carries nothing but an [x-api-key] header. *)
Definition api_key_request (k : string) : AuthRequest :=
  {| authorization := None; x_api_key := Some k; user := None; apiKey := None |}.

(** A request that carries nothing but an [Authorization] header. *)
Definition bearer_request (h : string) : AuthRequest :=
  {| authorization := Some h; x_api_key := None; user := None; apiKey := None |}.

(** The keys of the README's sample environment. *)
Definition sample_keys : ApiKeysConfig :=
  {| masterKey := "jug_master_key"; systemKey := "jug_system_key" |}.

Definition alice : Payload.t :=
  {| Payload.id := "u-1"; Payload.email := "alice@example.org";
     Payload.role := "user"; Payload.permissions := Some ["read"; "verify"] |}.

(** A [jwt.verify] that accepts the one token "tok-alice". *)
Definition sample_verify (token : string) : JwtResult :=
  if String.eqb token "tok-alice" then Verified alice
  else if String.eqb token "tok-old" then TokenExpiredError
  else JsonWebTokenError.

(** ** The auth controller (class [AuthController])

    [bcrypt.compare] is taken as a given function of the password and the
    stored hash.  The values of [bcrypt.hash], [uuidv4()], [new Date()] and
    [jwt.sign], and the outcome of [jwt.verify] on a refresh token, are
    passed in.  [register] awaits [bcrypt.hash] between its check of the
    [users] map and its write to it: the two halves are separate turns of
    the event loop, and a registration that waits for its hash is kept in
    [hashing].  [login] awaits [bcrypt.compare] after it has read the user
    and before it stores the refresh token; it is modelled as one turn. *)

Module User.
Record t := {
  id : string;
  email : string;
  password : string;
  name : string;
  organization : option string;
  role : string;
  permissions : list string;
  createdAt : Date
}.
End User.

Module ApiKey.
Record t := {
  id : string;
  key : string;
  name : string;
  userId : option string;
  permissions : list string;
  tier : string;
  createdAt : Date;
  lastUsed : option Date
}.
End ApiKey.

Record RegisterBody := {
  reg_email : string;
  reg_password : string;
  reg_name : string;
  reg_organization : option string
}.

Record LoginBody := {
  login_email : string;
  login_password : string
}.

Record ApiKeyRequest := {
  akr_name : string;
  akr_permissions : option (list string)
}.

Record AuthState := {
  users : JsMap.t User.t;
  apiKeys : JsMap.t ApiKey.t;
  refreshTokens : list string;
  hashing : list RegisterBody
}.

Definition auth_init : AuthState :=
  {| users := JsMap.empty; apiKeys := JsMap.empty; refreshTokens := [];
     hashing := [] |}.

(** [Set.prototype.has] and [Set.prototype.add] on a set of strings. *)
Definition set_has (l : list string) (x : string) : bool :=
  existsb (String.eqb x) l.

Definition set_add (l : list string) (x : string) : list string :=
  if set_has l x then l else l ++ [x].

(** [Map.prototype.delete] *)
Definition map_delete {V : Type} (m : JsMap.t V) (k : string) : JsMap.t V :=
  filter (fun kv => negb (String.eqb (fst kv) k)) m.

(** [a === b] on values that are a string or [undefined]. *)
Definition same_id (a b : option string) : bool :=
  match a, b with
  | Some x, Some y => String.eqb x y
  | None, None => true
  | _, _ => false
  end.

(** The character '-'. *)
Definition dash : Ascii.ascii := Ascii.ascii_of_nat 45.

(** [s.replace(/-/g, '')] *)
Fixpoint strip_dashes (s : string) : string :=
  match s with
  | EmptyString => EmptyString
  | String c s' =>
      if Ascii.eqb c dash then strip_dashes s' else String c (strip_dashes s')
  end.

Record UserView := {
  uv_id : string;
  uv_email : string;
  uv_name : string;
  uv_role : string
}.

Record Tokens := {
  accessToken : string;
  refreshToken : string
}.

Record ProfileView := {
  pv_id : string;
  pv_email : string;
  pv_name : string;
  pv_organization : option string;
  pv_role : string;
  pv_permissions : list string;
  pv_createdAt : Date
}.

(** An API key as [generateApiKey] answers it. *)
Record IssuedKeyView := {
  ik_id : string;
  ik_key : string;
  ik_name : string;
  ik_permissions : list string;
  ik_createdAt : Date
}.

(** An API key as [listApiKeys] lists it. *)
Record ListedKeyView := {
  lk_id : string;
  lk_name : string;
  lk_permissions : list string;
  lk_createdAt : Date;
  lk_lastUsed : option Date
}.

(** The JSON bodies of the auth handlers; [success] is [false] in
    [AuthFailure] and [true] elsewhere. *)
Inductive AuthBody :=
| AuthFailure (error : string)
| UserTokens (user : UserView) (tokens : Tokens)
| AccessToken (accessToken : string)
| Message (message : string)
| ProfileBody (user : ProfileView)
| IssuedKeyBody (apiKey : IssuedKeyView)
| ListedKeysBody (apiKeys : list ListedKeyView).

Record AuthResponse := { a_code : Z; a_body : AuthBody }.

(** What [jwt.verify] does with a refresh token: it returns a payload with
    an [id], or throws an error with a message and no [statusCode]. *)
Inductive RefreshVerify :=
| RefreshDecoded (id : string)
| RefreshThrows (message : string).

(** What [register] is handed when its hash is ready. *)
Record Issued := {
  is_hashedPassword : string;
  is_uuid : string;
  is_now : Date;
  is_accessToken : string;
  is_refreshToken : string
}.

Definition view_of (u : User.t) : UserView :=
  {| uv_id := User.id u; uv_email := User.email u;
     uv_name := User.name u; uv_role := User.role u |}.

(** The payload [generateAccessToken] signs. *)
Definition accessPayload (u : User.t) : Payload.t :=
  {| Payload.id := User.id u;
     Payload.email := User.email u;
     Payload.role := User.role u;
     Payload.permissions := Some (User.permissions u) |}.

(** The user object [register] builds from its body and from what it was
    issued, and the 201 answer it sends for it. *)
Definition registered_user (b : RegisterBody) (o : Issued) : User.t :=
  {| User.id := is_uuid o;
     User.email := reg_email b;
     User.password := is_hashedPassword o;
     User.name := reg_name b;
     User.organization := reg_organization b;
     User.role := "user";
     User.permissions := ["read"; "verify"];
     User.createdAt := is_now o |}.

Definition created (b : RegisterBody) (o : Issued) : AuthResponse :=
  {| a_code := 201;
     a_body := UserTokens (view_of (registered_user b o))
                 {| accessToken := is_accessToken o;
                    refreshToken := is_refreshToken o |} |}.

(** [register], up to [await bcrypt.hash]: the answer when the email is
    taken, nothing when the handler goes on to hash. *)
Definition registerCheck (s : AuthState) (b : RegisterBody) : option AuthResponse :=
  match JsMap.get (users s) (reg_email b) with
  | Some _ => Some {| a_code := 409; a_body := AuthFailure "User already exists" |}
  | None => None
  end.

(** [register], from the hash on. *)
Definition registerCommit (s : AuthState) (b : RegisterBody) (o : Issued)
    : AuthState * AuthResponse :=
  let user :=
    {| User.id := is_uuid o;
       User.email := reg_email b;
       User.password := is_hashedPassword o;
       User.name := reg_name b;
       User.organization := reg_organization b;
       User.role := "user";
       User.permissions := ["read"; "verify"];
       User.createdAt := is_now o |} in
  ({| users := JsMap.set (users s) (reg_email b) user;
      apiKeys := apiKeys s;
      refreshTokens := set_add (refreshTokens s) (is_refreshToken o);
      hashing := hashing s |},
   {| a_code := 201;
      a_body := UserTokens (view_of user)
                  {| accessToken := is_accessToken o;
                     refreshToken := is_refreshToken o |} |}).

Definition login (compare : string -> string -> bool) (s : AuthState)
    (b : LoginBody) (access refresh : string) : AuthState * AuthResponse :=
  match JsMap.get (users s) (login_email b) with
  | None => (s, {| a_code := 401; a_body := AuthFailure "Invalid credentials" |})
  | Some user =>
      if negb (compare (login_password b) (User.password user)) then
        (s, {| a_code := 401; a_body := AuthFailure "Invalid credentials" |})
      else
        ({| users := users s;
            apiKeys := apiKeys s;
            refreshTokens := set_add (refreshTokens s) refresh;
            hashing := hashing s |},
         {| a_code := 200;
            a_body := UserTokens (view_of user)
                        {| accessToken := access; refreshToken := refresh |} |})
  end.

(** [Array.from(this.users.values()).find(u => u.id === id)] *)
Definition find_user (s : AuthState) (id : option string) : option User.t :=
  find (fun u => same_id (Some (User.id u)) id) (JsMap.values (users s)).

Definition refreshToken_handler (s : AuthState) (token : string)
    (v : RefreshVerify) (access : string) : AuthResponse :=
  if negb (set_has (refreshTokens s) token) then
    {| a_code := 401; a_body := AuthFailure "Invalid refresh token" |}
  else
    match v with
    | RefreshThrows msg => {| a_code := 500; a_body := AuthFailure msg |}
    | RefreshDecoded id =>
        match find_user s (Some id) with
        | None => {| a_code := 404; a_body := AuthFailure "User not found" |}
        | Some _ => {| a_code := 200; a_body := AccessToken access |}
        end
    end.

Definition logout : AuthResponse :=
  {| a_code := 200; a_body := Message "Logged out successfully" |}.

Definition getProfile (s : AuthState) (userId : option string) : AuthResponse :=
  match find_user s userId with
  | None => {| a_code := 404; a_body := AuthFailure "User not found" |}
  | Some u =>
      {| a_code := 200;
         a_body := ProfileBody
                     {| pv_id := User.id u; pv_email := User.email u;
                        pv_name := User.name u;
                        pv_organization := User.organization u;
                        pv_role := User.role u;
                        pv_permissions := User.permissions u;
                        pv_createdAt := User.createdAt u |} |}
  end.

Definition generateApiKey (s : AuthState) (userId : option string)
    (b : ApiKeyRequest) (uuid1 uuid2 : string) (now : Date)
    : AuthState * AuthResponse :=
  let k :=
    {| ApiKey.id := uuid1;
       ApiKey.key := ("jug_" ++ strip_dashes uuid2)%string;
       ApiKey.name := akr_name b;
       ApiKey.userId := userId;
       ApiKey.permissions :=
         match akr_permissions b with
         | Some ps => ps
         | None => ["read"; "verify"]
         end;
       ApiKey.tier := "basic";
       ApiKey.createdAt := now;
       ApiKey.lastUsed := None |} in
  ({| users := users s;
      apiKeys := JsMap.set (apiKeys s) (ApiKey.key k) k;
      refreshTokens := refreshTokens s;
      hashing := hashing s |},
   {| a_code := 201;
      a_body := IssuedKeyBody
                  {| ik_id := ApiKey.id k; ik_key := ApiKey.key k;
                     ik_name := ApiKey.name k;
                     ik_permissions := ApiKey.permissions k;
                     ik_createdAt := ApiKey.createdAt k |} |}).

Definition listed (k : ApiKey.t) : ListedKeyView :=
  {| lk_id := ApiKey.id k; lk_name := ApiKey.name k;
     lk_permissions := ApiKey.permissions k;
     lk_createdAt := ApiKey.createdAt k;
     lk_lastUsed := ApiKey.lastUsed k |}.

Definition listApiKeys (s : AuthState) (userId : option string) : AuthResponse :=
  {| a_code := 200;
     a_body := ListedKeysBody
                 (map listed
                    (filter (fun k => same_id (ApiKey.userId k) userId)
                            (JsMap.values (apiKeys s)))) |}.

Definition revokeApiKey (s : AuthState) (userId : option string) (keyId : string)
    : AuthState * AuthResponse :=
  match find (fun k => String.eqb (ApiKey.id k) keyId
                       && same_id (ApiKey.userId k) userId)
             (JsMap.values (apiKeys s)) with
  | None => (s, {| a_code := 404; a_body := AuthFailure "API key not found" |})
  | Some k =>
      ({| users := users s;
          apiKeys := map_delete (apiKeys s) (ApiKey.key k);
          refreshTokens := refreshTokens s;
          hashing := hashing s |},
       {| a_code := 200; a_body := Message "API key revoked successfully" |})
  end.

(** The turns of the event loop that reach the auth controller. *)
Inductive AuthEvent :=
| RegisterArrives (b : RegisterBody)
| HashResolves (k : nat) (o : Issued)
| LoginRequest (b : LoginBody) (access refresh : string)
| RefreshRequest (token : string) (v : RefreshVerify) (access : string)
| LogoutRequest
| ProfileRequest (userId : option string)
| GenerateKey (userId : option string) (b : ApiKeyRequest) (uuid1 uuid2 : string)
    (now : Date)
| ListKeys (userId : option string)
| RevokeKey (userId : option string) (keyId : string).

Definition auth_step (compare : string -> string -> bool) (s : AuthState)
    (e : AuthEvent) : option (AuthState * option AuthResponse) :=
  match e with
  | RegisterArrives b =>
      match registerCheck s b with
      | Some r => Some (s, Some r)
      | None =>
          Some ({| users := users s; apiKeys := apiKeys s;
                   refreshTokens := refreshTokens s;
                   hashing := hashing s ++ [b] |}, None)
      end
  | HashResolves k o =>
      match nth_error (hashing s) k with
      | Some b =>
          let (s', r) :=
            registerCommit
              {| users := users s; apiKeys := apiKeys s;
                 refreshTokens := refreshTokens s;
                 hashing := firstn k (hashing s) ++ skipn (S k) (hashing s) |}
              b o in
          Some (s', Some r)
      | None => None
      end
  | LoginRequest b access refresh =>
      let (s', r) := login compare s b access refresh in Some (s', Some r)
  | RefreshRequest token v access =>
      Some (s, Some (refreshToken_handler s token v access))
  | LogoutRequest => Some (s, Some logout)
  | ProfileRequest userId => Some (s, Some (getProfile s userId))
  | GenerateKey userId b uuid1 uuid2 now =>
      let (s', r) := generateApiKey s userId b uuid1 uuid2 now in Some (s', Some r)
  | ListKeys userId => Some (s, Some (listApiKeys s userId))
  | RevokeKey userId keyId =>
      let (s', r) := revokeApiKey s userId keyId in Some (s', Some r)
  end.

(** A run, with the answers it gives in order. *)
Fixpoint auth_run (compare : string -> string -> bool) (s : AuthState)
    (evs : list AuthEvent) : option (AuthState * list AuthResponse) :=
  match evs with
  | [] => Some (s, [])
  | e :: evs' =>
      match auth_step compare s e with
      | Some (s', r) =>
          match auth_run compare s' evs' with
          | Some (s'', rs) =>
              Some (s'', match r with Some x => x :: rs | None => rs end)
          | None => None
          end
      | None => None
      end
  end.

Definition auth_reachable (compare : string -> string -> bool) (s : AuthState)
    : Prop :=
  exists evs rs, auth_run compare auth_init evs = Some (s, rs).

(** A [bcrypt.compare] for the examples: the hash of [p] is "h:" followed
    by [p]. *)
Definition sample_compare (password hash : string) : bool :=
  String.eqb hash ("h:" ++ password)%string.

Definition alice_registers : RegisterBody :=
  {| reg_email := "alice@example.org"; reg_password := "correct horse";
     reg_name := "Alice"; reg_organization := None |}.

Definition mallory_registers : RegisterBody :=
  {| reg_email := "alice@example.org"; reg_password := "123456";
     reg_name := "Mallory"; reg_organization := None |}.

Definition alice_issued : Issued :=
  {| is_hashedPassword := "h:correct horse"; is_uuid := "u-1"; is_now := 10;
     is_accessToken := "tok-alice"; is_refreshToken := "ref-alice" |}.

Definition mallory_issued : Issued :=
  {| is_hashedPassword := "h:123456"; is_uuid := "u-2"; is_now := 11;
     is_accessToken := "tok-mallory"; is_refreshToken := "ref-mallory" |}.

Definition alice_registered : AuthState :=
  Eval cbv in
    match auth_run sample_compare auth_init
            [RegisterArrives alice_registers; HashResolves 0 alice_issued] with
    | Some (s, _) => s
    | None => auth_init
    end.

Definition alice_user : User.t :=
  {| User.id := "u-1"; User.email := "alice@example.org";
     User.password := "h:correct horse"; User.name := "Alice";
     User.organization := None; User.role := "user";
     User.permissions := ["read"; "verify"]; User.createdAt := 10 |}.

(** What holds of an entry of [users]. *)
Definition user_ok (ku : string * User.t) : Prop :=
  User.email (snd ku) = fst ku
  /\ User.role (snd ku) = "user"
  /\ User.permissions (snd ku) = ["read"; "verify"].

(** ** The error handler (backend/src/middleware/errorHandler.ts) *)





(** ** Facts about [JsMap] *)
Section JsMapFacts.
Context {V : Type}.
Implicit Types (m : JsMap.t V) (k : string) (v : V).

Lemma get_set_same m k v : JsMap.get (JsMap.set m k v) k = Some v.
Proof.
  induction m as [|[k' v'] m IH]; simpl.
  - now rewrite String.eqb_refl.
  - destruct (String.eqb k' k) eqn:E; simpl; rewrite E; auto.
Qed.

Lemma get_set_other m k k' v :
  k <> k' -> JsMap.get (JsMap.set m k v) k' = JsMap.get m k'.
Proof.
  intros Hne. induction m as [|[k0 v0] m IH]; simpl.
  - destruct (String.eqb_spec k k'); congruence.
  - destruct (String.eqb_spec k0 k) as [->|]; simpl.
    + destruct (String.eqb_spec k k'); congruence.
    + destruct (String.eqb_spec k0 k'); auto.
Qed.

Lemma set_fresh m k v :
  JsMap.get m k = None -> JsMap.set m k v = m ++ [(k, v)].
Proof.
  induction m as [|[k' v'] m IH]; simpl; intros H; auto.
  destruct (String.eqb k' k); [discriminate|]. now rewrite IH.
Qed.

Lemma length_set_present m k v v0 :
  JsMap.get m k = Some v0 -> List.length (JsMap.set m k v) = List.length m.
Proof.
  induction m as [|[k' v'] m IH]; simpl; intros H; [discriminate|].
  destruct (String.eqb k' k); simpl; auto.
Qed.

Lemma keys_set_present m k v v0 :
  JsMap.get m k = Some v0 -> JsMap.keys (JsMap.set m k v) = JsMap.keys m.
Proof.
  unfold JsMap.keys.
  induction m as [|[k' v'] m IH]; simpl; intros H; [discriminate|].
  destruct (String.eqb k' k); simpl; auto. now rewrite IH.
Qed.

Lemma Forall_set (P : string * V -> Prop) m k v :
  Forall P m -> (forall k', k' = k -> P (k', v)) -> Forall P (JsMap.set m k v).
Proof.
  intros Hm Hv. induction Hm as [|[k' v'] m Hx Hm IH]; simpl.
  - constructor; auto.
  - destruct (String.eqb_spec k' k); constructor; auto.
Qed.

Lemma Forall_get (P : string * V -> Prop) m k v :
  Forall P m -> JsMap.get m k = Some v -> P (k, v).
Proof.
  intros Hm. induction Hm as [|[k' v'] m Hx Hm IH]; simpl; [discriminate|].
  destruct (String.eqb_spec k' k) as [->|]; auto.
  intros [= ->]. exact Hx.
Qed.

Lemma Forall_values (P : V -> Prop) m :
  Forall (fun kv => P (snd kv)) m -> Forall P (JsMap.values m).
Proof. unfold JsMap.values. intros H. now apply Forall_map. Qed.
End JsMapFacts.

(** ** Facts about the pending callbacks *)

Lemma nth_error_cut {A : Type} (l : list A) (k : nat) (a : A) :
  nth_error l k = Some a -> l = firstn k l ++ a :: skipn (S k) l.
Proof.
  revert l. induction k as [|k IH]; intros [|x l] H; simpl in *; try discriminate.
  - now injection H as ->.
  - f_equal. now apply IH.
Qed.

Lemma drop_nodup {A B : Type} (f : A -> B) (l : list A) (k : nat) (a : A) :
  NoDup (map f l) -> nth_error l k = Some a ->
  NoDup (map f (firstn k l ++ skipn (S k) l))
  /\ forall a', In a' (firstn k l ++ skipn (S k) l) -> f a' <> f a.
Proof.
  intros Hnd Hk. rewrite (nth_error_cut l k a Hk) in Hnd.
  rewrite map_app in Hnd. simpl in Hnd.
  apply NoDup_remove in Hnd as [Hnd Hnotin].
  rewrite <- map_app in Hnd, Hnotin. split; [exact Hnd|].
  intros a' Hin Heq. apply Hnotin. rewrite <- Heq. now apply in_map.
Qed.

Lemma drop_incl {A : Type} (l : list A) (k : nat) (a : A) :
  In a (firstn k l ++ skipn (S k) l) -> In a l.
Proof.
  intros H. apply in_app_or in H as [H|H].
  - rewrite <- (firstn_skipn k l). apply in_or_app. now left.
  - rewrite <- (firstn_skipn (S k) l). apply in_or_app. now right.
Qed.

(** ** The invariant holds in every reachable state *)

Lemma Inv_init : Inv init.
Proof. split; simpl; constructor. Qed.

Lemma timer_ok_other m k c t :
  timer_ok m t -> Timer.id t <> k -> timer_ok (JsMap.set m k c) t.
Proof.
  intros (c0 & Hg & Hc & Hp) Hne. exists c0. rewrite get_set_other; auto.
Qed.

Lemma timer_ok_same m k c c' t :
  timer_ok m t -> JsMap.get m k = Some c ->
  Computation.completedAt c' = Computation.completedAt c ->
  Computation.parameters c' = Computation.parameters c ->
  timer_ok (JsMap.set m k c') t.
Proof.
  intros (c0 & Hg & Hc & Hp) Hk Hc' Hp'.
  destruct (String.eqb_spec k (Timer.id t)) as [->|Hne].
  - exists c'. rewrite get_set_same. rewrite Hg in Hk. injection Hk as <-.
    repeat split; congruence.
  - exists c0. rewrite get_set_other; auto.
Qed.

Lemma Inv_triggerRecomputation s uuid now b :
  Inv s -> fresh (computations s) uuid = true ->
  Inv (fst (triggerRecomputation s uuid now b)).
Proof.
  intros [Hj Hn Ht] Hf. unfold fresh in Hf.
  destruct (JsMap.get (computations s) uuid) eqn:Hg; [discriminate|].
  assert (Hnot : ~ In uuid (map Timer.id (timers s))).
  { intros Hin. apply in_map_iff in Hin as (t & Hid & Hin).
    rewrite Forall_forall in Ht. destruct (Ht t Hin) as (c & Hc & _).
    congruence. }
  split; simpl.
  - apply Forall_set; auto. intros k' ->. unfold job_ok, assigned_status; simpl.
    repeat split; auto; try discriminate.
  - rewrite map_app. simpl.
    apply NoDup_Add with (a := uuid) (l := map Timer.id (timers s)).
    + rewrite <- (app_nil_r (map Timer.id (timers s))) at 1.
      apply Add_app.
    + split; auto.
  - apply Forall_app. split.
    + rewrite Forall_forall in *. intros t Hin. apply timer_ok_other; auto.
      intros Heq. apply Hnot. rewrite <- Heq. now apply in_map.
    + constructor; [|constructor]. eexists. simpl. rewrite get_set_same.
      repeat split.
Qed.

Lemma Inv_completionCallback s k t now rnd :
  Inv s -> nth_error (timers s) k = Some t ->
  Inv (completionCallback (drop_timer k s) t now rnd).
Proof.
  intros [Hj Hn Ht] Hk.
  destruct (drop_nodup Timer.id _ _ _ Hn Hk) as [Hn' Hne].
  assert (Ht' : Forall (timer_ok (computations s)) (timers (drop_timer k s))).
  { rewrite Forall_forall in *. intros t' Hin. apply Ht.
    simpl in Hin. now apply drop_incl in Hin. }
  unfold completionCallback. simpl.
  destruct (JsMap.get (computations s) (Timer.id t)) as [comp|] eqn:Hg.
  - pose proof (Forall_get _ _ _ _ Hj Hg) as (Hid & Hst & Herr & Hres & Hc & Hr).
    simpl in *. split; simpl; auto.
    + apply Forall_set; auto. intros k' ->. unfold job_ok, assigned_status; simpl.
      repeat split; auto; try discriminate.
    + rewrite Forall_forall in *. intros t' Hin. apply timer_ok_other; auto.
  - split; simpl; auto.
Qed.

Lemma Inv_cancelComputation s cid now :
  Inv s -> Inv (fst (cancelComputation s cid now)).
Proof.
  intros [Hj Hn Ht]. unfold cancelComputation.
  destruct (JsMap.get (computations s) cid) as [comp|] eqn:Hg; simpl.
  - pose proof (Forall_get _ _ _ _ Hj Hg) as (Hid & Hst & Herr & Hres & Hc & Hr).
    simpl in *. split; simpl; auto.
    + apply Forall_set; auto. intros k' ->. unfold job_ok, assigned_status; simpl.
      repeat split; auto; try discriminate; apply Hres.
    + rewrite Forall_forall in *. intros t' Hin.
      eapply timer_ok_same; eauto.
  - split; auto.
Qed.

Lemma Inv_step s e s' r : Inv s -> step s e = Some (s', r) -> Inv s'.
Proof.
  intros HI. destruct e; cbn [step].
  - destruct (fresh (computations s) uuid) eqn:Hf; [|discriminate].
    pose proof (Inv_triggerRecomputation s uuid now b HI Hf) as H.
    destruct (triggerRecomputation s uuid now b). intros [= <- <-]. exact H.
  - destruct (nth_error (timers s) k) as [t|] eqn:Hk; [|discriminate].
    destruct (_ && _); [|discriminate]. intros [= <- <-].
    now apply Inv_completionCallback.
  - now intros [= <- <-].
  - now intros [= <- <-].
  - pose proof (Inv_cancelComputation s computationId now HI) as H.
    destruct (cancelComputation s computationId now). intros [= <- <-]. exact H.
  - now intros [= <- <-].
  - destruct (fresh (schedules s) uuid); [|discriminate].
    intros [= <- <-]. destruct HI. split; auto.
  - now intros [= <- <-].
Qed.

Lemma Inv_run evs : forall s s', Inv s -> run s evs = Some s' -> Inv s'.
Proof.
  induction evs as [|e evs IH]; simpl; intros s s' HI H.
  - now injection H as <-.
  - destruct (step s e) as [[s1 r]|] eqn:Hs; [|discriminate].
    eapply IH; [|exact H]. eapply Inv_step; eauto.
Qed.

Lemma reachable_Inv s : reachable s -> Inv s.
Proof. intros [evs H]. eapply Inv_run; [apply Inv_init | exact H]. Qed.

Lemma run_app s evs1 evs2 :
  run s (evs1 ++ evs2) =
  match run s evs1 with Some s1 => run s1 evs2 | None => None end.
Proof.
  revert s. induction evs1 as [|e evs1 IH]; simpl; intros s; auto.
  destruct (step s e) as [[s1 r]|]; auto.
Qed.

Lemma reachable_run s evs s' : reachable s -> run s evs = Some s' -> reachable s'.
Proof.
  intros [evs0 H0] H. exists (evs0 ++ evs). now rewrite run_app, H0.
Qed.

(** ** Counting statuses *)

Lemma status_is_eqb st c :
  status_is (status_str st) c = Status_eqb (Computation.status c) st.
Proof. unfold status_is. now destruct (Computation.status c), st. Qed.

Lemma count_status_cons st c l :
  count_status st (c :: l) =
  (if Status_eqb (Computation.status c) st then 1 else 0) + count_status st l.
Proof.
  unfold count_status. cbn [filter]. rewrite status_is_eqb.
  destruct (Status_eqb (Computation.status c) st); cbn [List.length]; lia.
Qed.

Lemma count_status_partition l :
  Forall assigned_status l ->
  count_status pending l = 0 /\ count_status failed l = 0
  /\ Z.of_nat (List.length l) =
     count_status running l + count_status completed l + count_status cancelled l.
Proof.
  induction 1 as [|c l Hc Hl (IHp & IHf & IH)]; [repeat split|].
  rewrite !count_status_cons. cbn [List.length]. rewrite Nat2Z.inj_succ.
  destruct Hc as [E|[E|E]]; rewrite E; cbn [Status_eqb]; lia.
Qed.

Lemma reachable_jobs s :
  reachable s -> Forall (fun c => exists k, job_ok (k, c)) (JsMap.values (computations s)).
Proof.
  intros Hr. apply reachable_Inv in Hr as [Hj _ _].
  apply Forall_values. eapply Forall_impl; [|exact Hj].
  intros [k c] H. now exists k.
Qed.

(** ** The lifecycle of a terminal job *)

Lemma settled_refl j : terminal (Computation.status j) = true -> settled j j.
Proof. intros H. repeat split; auto. Qed.

Lemma settled_trans j1 j2 j3 : settled j1 j2 -> settled j2 j3 -> settled j1 j3.
Proof.
  intros (_ & Hc & Hx) (Ht & Hc' & Hx'). repeat split; auto.
Qed.

(** A turn that answers from the state it found. *)
Ltac same_store Hs Hsame := injection Hs as <- _; exact Hsame.

Lemma step_settled s e s' r cid j :
  Inv s -> step s e = Some (s', r) ->
  JsMap.get (computations s) cid = Some j ->
  terminal (Computation.status j) = true ->
  exists j', JsMap.get (computations s') cid = Some j' /\ settled j j'.
Proof.
  intros HI Hs Hg Hterm.
  assert (Hsame : exists j', JsMap.get (computations s) cid = Some j' /\ settled j j')
    by (exists j; split; [exact Hg | now apply settled_refl]).
  destruct e; cbn [step] in Hs.
  - unfold fresh in Hs.
    destruct (JsMap.get (computations s) uuid) eqn:Hu; [discriminate|].
    injection Hs as <- _. simpl. rewrite get_set_other; [exact Hsame | congruence].
  - destruct (nth_error (timers s) k) as [t|] eqn:Hk; [|discriminate].
    destruct (_ && _); [|discriminate]. injection Hs as <- _.
    unfold completionCallback. simpl.
    destruct (JsMap.get (computations s) (Timer.id t)) as [comp|] eqn:Hc;
      [|exact Hsame].
    simpl. destruct (String.eqb_spec (Timer.id t) cid) as [E|Hne].
    + rewrite E in *. rewrite get_set_same. eexists; split; [reflexivity|].
      assert (comp = j) as -> by congruence.
      destruct HI as [_ _ Ht]. rewrite Forall_forall in Ht.
      apply nth_error_In in Hk. destruct (Ht t Hk) as (c0 & Hc0 & Hnone & _).
      rewrite E in Hc0. assert (c0 = j) as -> by congruence.
      repeat split; simpl; auto. intros d Hd. congruence.
    + rewrite get_set_other; auto.
  - same_store Hs Hsame.
  - same_store Hs Hsame.
  - unfold cancelComputation in Hs.
    destruct (JsMap.get (computations s) computationId) as [comp|] eqn:Hc;
      injection Hs as <- _; [|exact Hsame].
    simpl. destruct (String.eqb_spec computationId cid) as [E|Hne].
    + rewrite E in *. rewrite get_set_same. eexists; split; [reflexivity|].
      assert (comp = j) as -> by congruence.
      repeat split; simpl; auto. discriminate.
    + rewrite get_set_other; auto.
  - same_store Hs Hsame.
  - destruct (fresh (schedules s) uuid); [|discriminate].
    same_store Hs Hsame.
  - same_store Hs Hsame.
Qed.

Lemma run_settled evs : forall s s' cid j,
  Inv s -> run s evs = Some s' ->
  JsMap.get (computations s) cid = Some j ->
  terminal (Computation.status j) = true ->
  exists j', JsMap.get (computations s') cid = Some j' /\ settled j j'.
Proof.
  induction evs as [|e evs IH]; simpl; intros s s' cid j HI Hrun Hg Hterm.
  - injection Hrun as <-. exists j. split; auto. now apply settled_refl.
  - destruct (step s e) as [[s1 r]|] eqn:Hs; [|discriminate].
    destruct (step_settled _ _ _ _ _ _ HI Hs Hg Hterm) as (j1 & Hg1 & Hset1).
    destruct (IH s1 s' cid j1 (Inv_step _ _ _ _ HI Hs) Hrun Hg1 (proj1 Hset1))
      as (j' & Hg' & Hset').
    exists j'. split; auto. eapply settled_trans; eauto.
Qed.

(** ** The handlers, one by one *)

Lemma iterations_default p : no_iterations p = true -> iterations_or_default p = 100.
Proof.
  destruct p as [[a [n|] th o pa]|]; simpl; intros H; auto. discriminate.
Qed.

Lemma unit_interval_true rnd : (0 <= rnd)%Q -> (rnd < 1)%Q -> unit_interval rnd = true.
Proof.
  intros H0 H1. unfold unit_interval. apply andb_true_intro. split.
  - now apply Qle_bool_iff.
  - destruct (Qle_bool 1 rnd) eqn:E; auto.
    apply Qle_bool_iff in E. exfalso. now apply (Qlt_not_le rnd 1).
Qed.

Lemma accuracy_bounds rnd :
  (0 <= rnd)%Q -> (rnd < 1)%Q ->
  (0 <= rnd * (2 # 10) + (8 # 10))%Q /\ (rnd * (2 # 10) + (8 # 10) <= 1)%Q.
Proof. intros H0 H1. split; lra. Qed.

(** The callback looks at no field of the job it finds: whatever the status
    of the stored job, it stores 'completed'. *)
Lemma completionCallback_ignores_status s t now rnd j :
  JsMap.get (computations s) (Timer.id t) = Some j ->
  exists j',
    JsMap.get (computations (completionCallback s t now rnd)) (Timer.id t) = Some j'
    /\ Computation.status j' = completed
    /\ Computation.cancelledAt j' = Computation.cancelledAt j.
Proof.
  intros Hg. unfold completionCallback. rewrite Hg. simpl.
  rewrite get_set_same. eexists. repeat split.
Qed.

(** C1 (the controller departs from it): a job cancelled before its
    completion callback runs does not stay cancelled.  The job is submitted
    at time 0 and cancelled at time 1000; when the callback runs at time 5000
    it stores status 'completed' and a completion time over the cancelled
    job. *)
Example late_trigger_completes_cancelled_job :
  map lifecycle (JsMap.values (computations cancelled_in_flight))
  = [(cancelled, None, Some 1000)]
  /\ option_map (fun s => map lifecycle (JsMap.values (computations s)))
       (run init [Recompute "job-1" 0 d1_request; Cancel "job-1" 1000;
                  TimerFires 0 5000 (1 # 2)])
     = Some [(completed, Some 5000, Some 1000)].
Proof. split; reflexivity. Qed.

(** C2 as stated fails: cancelling a job that has already completed is
    answered with 200, not 409, and sets [cancelledAt]. *)
Example cancel_of_completed_job_succeeds :
  (let (s', r) := cancelComputation one_completed "job-1" 6000 in
   (code r, map lifecycle (JsMap.values (computations s'))))
  = (200, [(cancelled, Some 5000, Some 6000)]).
Proof. reflexivity. Qed.

(** C2, amended: [cancelComputation] answers 404 and changes nothing when
    the id is unknown; for every stored job, whatever its status, it answers
    200 with the job's id and status 'cancelled', stores status 'cancelled'
    and [cancelledAt] = now for that job, and leaves [completedAt], every
    other field of the job, every other job, the order of the jobs, the
    schedules and the pending callbacks as they were. *)
Theorem cancelComputation_outcome (s : State) (cid : string) (now : Date) :
  match JsMap.get (computations s) cid with
  | None => cancelComputation s cid now = (s, notFound)
  | Some j =>
      snd (cancelComputation s cid now)
      = {| code := 200;
           body := CancelledBody "Computation cancelled" (Computation.id j) cancelled |}
      /\ JsMap.get (computations (fst (cancelComputation s cid now))) cid
         = Some {| Computation.id := Computation.id j;
                   Computation.datasetId := Computation.datasetId j;
                   Computation.status := cancelled;
                   Computation.startedAt := Computation.startedAt j;
                   Computation.parameters := Computation.parameters j;
                   Computation.options := Computation.options j;
                   Computation.progress := Computation.progress j;
                   Computation.completedAt := Computation.completedAt j;
                   Computation.results := Computation.results j;
                   Computation.cancelledAt := Some now;
                   Computation.error := Computation.error j |}
      /\ (forall k, k <> cid ->
            JsMap.get (computations (fst (cancelComputation s cid now))) k
            = JsMap.get (computations s) k)
      /\ JsMap.keys (computations (fst (cancelComputation s cid now)))
         = JsMap.keys (computations s)
      /\ timers (fst (cancelComputation s cid now)) = timers s
      /\ schedules (fst (cancelComputation s cid now)) = schedules s
  end.
Proof.
  unfold cancelComputation.
  destruct (JsMap.get (computations s) cid) as [j|] eqn:Hg; [|reflexivity].
  cbn [fst snd with_computations computations timers schedules].
  split; [reflexivity|]. split; [|split; [|split; [|split]]].
  - apply get_set_same.
  - intros k Hk. apply get_set_other. congruence.
  - eapply keys_set_present; eauto.
  - reflexivity.
  - reflexivity.
Qed.

(** C3 as stated fails: a completed job that is then cancelled carries both
    terminal timestamps, and a second cancel sets [cancelledAt] again. *)
Example both_terminal_timestamps_set :
  option_map (fun s => map lifecycle (JsMap.values (computations s)))
    (run one_completed [Cancel "job-1" 6000])
  = Some [(cancelled, Some 5000, Some 6000)]
  /\ option_map (fun s => map lifecycle (JsMap.values (computations s)))
       (run one_completed [Cancel "job-1" 6000; Cancel "job-1" 7000])
     = Some [(cancelled, Some 5000, Some 7000)].
Proof. split; reflexivity. Qed.

(** C3, amended: in every reachable state, a job that is in a terminal state
    is still stored and still in a terminal state after any further turns of
    the event loop (requests or callbacks); its [completedAt], once set,
    keeps its value; its [cancelledAt], once set, stays set. *)
Theorem terminal_jobs_stay_terminal
    (s s' : State) (evs : list Event) (cid : string) (j : Computation.t) :
  reachable s ->
  run s evs = Some s' ->
  JsMap.get (computations s) cid = Some j ->
  terminal (Computation.status j) = true ->
  exists j',
    JsMap.get (computations s') cid = Some j'
    /\ terminal (Computation.status j') = true
    /\ (forall d, Computation.completedAt j = Some d ->
                  Computation.completedAt j' = Some d)
    /\ (Computation.cancelledAt j <> None -> Computation.cancelledAt j' <> None).
Proof.
  intros Hr Hrun Hg Ht.
  destruct (run_settled evs s s' cid j (reachable_Inv s Hr) Hrun Hg Ht)
    as (j' & Hg' & Hset).
  exists j'. split; [exact Hg' | exact Hset].
Qed.

Lemma terminal_jobs_stay_terminal_witness :
  exists j',
    JsMap.get (computations cancelled_twice) "job-1" = Some j'
    /\ terminal (Computation.status j') = true
    /\ (forall d, Computation.completedAt completed_job = Some d ->
                  Computation.completedAt j' = Some d)
    /\ (Computation.cancelledAt completed_job <> None ->
        Computation.cancelledAt j' <> None).
Proof.
  apply (terminal_jobs_stay_terminal one_completed cancelled_twice
           [Cancel "job-1" 6000; Cancel "job-1" 7000] "job-1" completed_job).
  - exists [Recompute "job-1" 0 d1_request; TimerFires 0 5000 (1 # 2)].
    reflexivity.
  - reflexivity.
  - reflexivity.
  - reflexivity.
Defined.

(** C4 as stated fails: a job cancelled after its completion is 'cancelled'
    and still holds its result. *)
Example cancelled_job_keeps_results :
  option_map
    (fun s => map (fun c => (Computation.status c,
                             option_map Results.iterations (Computation.results c)))
                  (JsMap.values (computations s)))
    (run one_completed [Cancel "job-1" 6000])
  = Some [(cancelled, Some 100)].
Proof. reflexivity. Qed.

(** C4, amended: in every reachable state, for every stored job: a
    'completed' job has a result; a job that has a result has [completedAt]
    set and is 'completed' or 'cancelled' (a job cancelled after completion
    keeps its result); the error field is present if and only if the status
    is 'failed' (neither ever happens); result and error are never both
    present; a 'cancelled' job has no error; a 'running' job has neither. *)
Theorem result_and_error_fields (s : State) (c : Computation.t) :
  reachable s ->
  In c (JsMap.values (computations s)) ->
  (Computation.status c = completed -> Computation.results c <> None)
  /\ (Computation.results c <> None ->
      Computation.completedAt c <> None
      /\ (Computation.status c = completed \/ Computation.status c = cancelled))
  /\ (Computation.error c <> None <-> Computation.status c = failed)
  /\ ~ (Computation.results c <> None /\ Computation.error c <> None)
  /\ (Computation.status c = cancelled -> Computation.error c = None)
  /\ (Computation.status c = running ->
      Computation.results c = None /\ Computation.error c = None).
Proof.
  intros Hr Hin. pose proof (reachable_jobs s Hr) as Hall.
  rewrite Forall_forall in Hall.
  destruct (Hall c Hin) as (k & _ & Hst & Herr & Hres & Hc & Hrun).
  simpl in *. unfold assigned_status in Hst.
  assert (Hnf : Computation.status c <> failed)
    by (destruct Hst as [E|[E|E]]; congruence).
  split; [|split; [|split; [|split; [|split]]]].
  - intros E H. apply Hres in H. now apply Hc.
  - intros H. split.
    + intros E. apply H. now apply Hres.
    + destruct Hst as [E|[E|E]]; auto.
      destruct (Hrun E) as [Hn _]. apply Hres in Hn. contradiction.
  - split; intros H; [contradiction | congruence].
  - intros [_ H]. contradiction.
  - auto.
  - intros E. split; auto. apply Hres. now apply Hrun.
Qed.

Lemma result_and_error_fields_witness :
  (Computation.status completed_job = completed ->
   Computation.results completed_job <> None)
  /\ (Computation.results completed_job <> None ->
      Computation.completedAt completed_job <> None
      /\ (Computation.status completed_job = completed
          \/ Computation.status completed_job = cancelled))
  /\ (Computation.error completed_job <> None <->
      Computation.status completed_job = failed)
  /\ ~ (Computation.results completed_job <> None
        /\ Computation.error completed_job <> None)
  /\ (Computation.status completed_job = cancelled ->
      Computation.error completed_job = None)
  /\ (Computation.status completed_job = running ->
      Computation.results completed_job = None
      /\ Computation.error completed_job = None).
Proof.
  apply (result_and_error_fields one_completed completed_job).
  - exists [Recompute "job-1" 0 d1_request; TimerFires 0 5000 (1 # 2)].
    reflexivity.
  - simpl. left. reflexivity.
Defined.

(** C5: [getComputationResults] answers 404 with an error body when the id
    is unknown; for a stored job whose status is not 'completed' it answers
    202 with the job's current status and progress, in a body that has no
    results field; for a 'completed' job it answers 200 with the stored
    results and the metadata of the job. *)
Theorem getComputationResults_outcome (s : State) (cid : string) :
  (JsMap.get (computations s) cid = None ->
   getComputationResults s cid
   = {| code := 404; body := ErrorBody "Computation not found" |})
  /\ (forall j, JsMap.get (computations s) cid = Some j ->
        Computation.status j <> completed ->
        getComputationResults s cid
        = {| code := 202;
             body := InProgressBody "Computation still in progress"
                       (Computation.status j) (Computation.progress j) |}
        /\ has_results_field (body (getComputationResults s cid)) = false)
  /\ (forall j, JsMap.get (computations s) cid = Some j ->
        Computation.status j = completed ->
        getComputationResults s cid
        = {| code := 200;
             body := ResultsBody (Computation.results j)
                       {| md_computationId := Computation.id j;
                          md_datasetId := Computation.datasetId j;
                          md_completedAt := Computation.completedAt j |} |}).
Proof.
  unfold getComputationResults. split; [|split].
  - intros ->. reflexivity.
  - intros j -> Hst.
    destruct (Computation.status j); try (split; reflexivity). contradiction.
  - intros j -> ->. reflexivity.
Qed.

Example getComputationResults_unknown :
  getComputationResults one_running "job-2" = notFound.
Proof. reflexivity. Qed.

Example getComputationResults_running :
  getComputationResults one_running "job-1"
  = {| code := 202;
       body := InProgressBody "Computation still in progress" running 0 |}.
Proof. reflexivity. Qed.

Example getComputationResults_completed :
  getComputationResults one_completed "job-1"
  = {| code := 200;
       body := ResultsBody (Computation.results completed_job)
                 {| md_computationId := "job-1";
                    md_datasetId := "d1";
                    md_completedAt := Some 5000 |} |}.
Proof. reflexivity. Qed.

(** C6: for every request body, [triggerRecomputation] answers 202 with the
    new id and status 'running'; the job stored under that id has the
    request's dataset, parameters and options, status 'running', progress 0
    and no completion; one completion callback for that id, due 5000 ms
    later, is added to the pending ones; every other job is untouched, and
    when the id is new the job is appended after the jobs already stored.
    Nothing but the request is consulted: no state of the controller refuses
    a submission. *)
Theorem triggerRecomputation_outcome
    (s : State) (uuid : string) (now : Date) (b : RecomputeBody) :
  let s' := fst (triggerRecomputation s uuid now b) in
  let job :=
    {| Computation.id := uuid;
       Computation.datasetId := rb_datasetId b;
       Computation.status := running;
       Computation.startedAt := now;
       Computation.parameters := rb_parameters b;
       Computation.options := rb_options b;
       Computation.progress := 0;
       Computation.completedAt := None;
       Computation.results := None;
       Computation.cancelledAt := None;
       Computation.error := None |} in
  snd (triggerRecomputation s uuid now b)
  = {| code := 202; body := InitiatedBody "Computation initiated" uuid running |}
  /\ JsMap.get (computations s') uuid = Some job
  /\ timers s'
     = timers s ++ [{| Timer.id := uuid;
                       Timer.parameters := rb_parameters b;
                       Timer.due := now + 5000 |}]
  /\ (forall k, k <> uuid ->
        JsMap.get (computations s') k = JsMap.get (computations s) k)
  /\ (JsMap.get (computations s) uuid = None ->
      JsMap.values (computations s') = JsMap.values (computations s) ++ [job])
  /\ (fresh (computations s) uuid = true ->
      step s (Recompute uuid now b)
      = Some (s', Some (snd (triggerRecomputation s uuid now b)))).
Proof.
  simpl. repeat split.
  - apply get_set_same.
  - intros k Hk. apply get_set_other. congruence.
  - intros Hg. rewrite set_fresh by exact Hg.
    unfold JsMap.values. now rewrite map_app.
  - intros ->. reflexivity.
Qed.

Lemma firstn_min {A : Type} (l : list A) (n : nat) :
  firstn (Z.to_nat (Z.min (Z.of_nat n) (Z.of_nat (List.length l)))) l = firstn n l.
Proof.
  destruct (Nat.le_gt_cases n (List.length l)) as [Hle|Hgt].
  - rewrite Z.min_l by lia. now rewrite Nat2Z.id.
  - rewrite Z.min_r by lia. rewrite Nat2Z.id.
    rewrite firstn_all. symmetry. apply firstn_all2. lia.
Qed.

Lemma slice0_prefix {A : Type} (l : list A) (e : JsNum) :
  exists n, slice0 l e = firstn n l.
Proof. unfold slice0. eexists. reflexivity. Qed.

Lemma Forall_firstn {A : Type} (P : A -> Prop) (l : list A) (n : nat) :
  Forall P l -> Forall P (firstn n l).
Proof.
  intros H. rewrite Forall_forall in *. intros x Hx. apply H.
  rewrite <- (firstn_skipn n l). apply in_or_app. now left.
Qed.

Lemma filter_status_eqb x l :
  filter (status_is (status_str x)) l
  = filter (fun c => Status_eqb (Computation.status c) x) l.
Proof. apply filter_ext. intros c. apply status_is_eqb. Qed.

Lemma status_str_truthy x : truthy (status_str x) = true.
Proof. now destruct x. Qed.

(** C7: in every reachable state, when the completion callback of a stored
    job that was submitted with dataset "d1" and without [iterations], and is
    still 'running', runs (at a time [now] at which it is due, with
    [Math.random()] in [0, 1)), the job becomes 'completed' with progress 100
    and [completedAt] = now, and [getComputationResults] then answers 200
    with convergence [true], 100 iterations, an accuracy between 0 and 1, and
    metadata holding the job's id, dataset "d1" and the completion time. *)
Theorem callback_completes_d1_job
    (s : State) (cid : string) (j : Computation.t) (k : nat) (t : Timer.t)
    (now : Date) (rnd : Q) :
  reachable s ->
  JsMap.get (computations s) cid = Some j ->
  Computation.datasetId j = "d1" ->
  no_iterations (Computation.parameters j) = true ->
  Computation.status j = running ->
  nth_error (timers s) k = Some t ->
  Timer.id t = cid ->
  Timer.due t <= now ->
  (0 <= rnd)%Q -> (rnd < 1)%Q ->
  exists s' j' acc,
    step s (TimerFires k now rnd) = Some (s', None)
    /\ JsMap.get (computations s') cid = Some j'
    /\ Computation.status j' = completed
    /\ Computation.progress j' = 100
    /\ Computation.completedAt j' = Some now
    /\ getComputationResults s' cid
       = {| code := 200;
            body := ResultsBody
                      (Some {| Results.accuracy := acc;
                               Results.iterations := 100;
                               Results.convergence := true |})
                      {| md_computationId := cid;
                         md_datasetId := "d1";
                         md_completedAt := Some now |} |}
    /\ (0 <= acc)%Q /\ (acc <= 1)%Q.
Proof.
  intros Hr Hg Hd Hni Hst Hk Hid Hdue H0 H1.
  destruct (reachable_Inv s Hr) as [Hj _ Ht].
  pose proof (Forall_get _ _ _ _ Hj Hg) as (Hkey & _). simpl in Hkey.
  rewrite Forall_forall in Ht.
  destruct (Ht t (nth_error_In _ _ Hk)) as (c & Hc & _ & Hp).
  rewrite Hid, Hg in Hc. injection Hc as <-.
  destruct (accuracy_bounds rnd H0 H1) as [Ha0 Ha1].
  eexists. eexists. exists (rnd * (2 # 10) + (8 # 10))%Q.
  split.
  { cbn [step]. rewrite Hk.
    replace (Timer.due t <=? now) with true by (symmetry; now apply Z.leb_le).
    rewrite (unit_interval_true rnd H0 H1). cbn [andb]. reflexivity. }
  unfold completionCallback. cbn [drop_timer computations].
  rewrite Hid, Hg. cbn [with_computations computations].
  split; [apply get_set_same|].
  cbn [Computation.status Computation.progress Computation.completedAt].
  repeat (split; [reflexivity|]).
  split; [|split; assumption].
  unfold getComputationResults, with_computations. cbn [computations].
  rewrite get_set_same. cbn. rewrite <- Hp, (iterations_default _ Hni), Hkey, Hd. reflexivity.
Qed.

Lemma callback_completes_d1_job_witness :
  exists s' j' acc,
    step one_running (TimerFires 0 5000 (1 # 2)) = Some (s', None)
    /\ JsMap.get (computations s') "job-1" = Some j'
    /\ Computation.status j' = completed
    /\ Computation.progress j' = 100
    /\ Computation.completedAt j' = Some 5000
    /\ getComputationResults s' "job-1"
       = {| code := 200;
            body := ResultsBody
                      (Some {| Results.accuracy := acc;
                               Results.iterations := 100;
                               Results.convergence := true |})
                      {| md_computationId := "job-1";
                         md_datasetId := "d1";
                         md_completedAt := Some 5000 |} |}
    /\ (0 <= acc)%Q /\ (acc <= 1)%Q.
Proof.
  apply (callback_completes_d1_job one_running "job-1" running_job 0%nat
           {| Timer.id := "job-1"; Timer.parameters := None; Timer.due := 5000 |}
           5000 (1 # 2)).
  - exists [Recompute "job-1" 0 d1_request]. reflexivity.
  - reflexivity.
  - reflexivity.
  - reflexivity.
  - reflexivity.
  - reflexivity.
  - reflexivity.
  - simpl. lia.
  - unfold Qle. simpl. lia.
  - unfold Qlt. simpl. lia.
Defined.

(** C8: for every state of the store and every (non-empty) status filter
    string, the history lists only jobs whose status is that string, as a
    prefix of the matching jobs in the insertion order of the store, and
    [pagination.total] is the number of matching jobs in the store, whatever
    [page] and [limit] are. *)
Theorem history_filters_by_status
    (s : State) (page limit : option JsNum) (f : string) :
  f <> "" ->
  let matching :=
    filter (fun c => String.eqb (status_str (Computation.status c)) f)
           (JsMap.values (computations s)) in
  exists jobs pg,
    getComputationHistory s {| q_page := page; q_limit := limit; q_status := Some f |}
    = {| code := 200; body := HistoryBody jobs pg |}
    /\ Forall (fun c => status_str (Computation.status c) = f) jobs
    /\ (exists n, jobs = firstn n matching)
    /\ pg_total pg = Z.of_nat (List.length matching).
Proof.
  intros Hf matching. unfold getComputationHistory. cbn [q_page q_limit q_status].
  assert (Ht : truthy f = true).
  { unfold truthy. destruct (String.eqb_spec f ""); [contradiction | reflexivity]. }
  rewrite Ht. fold (status_is f). eexists. eexists. split; [reflexivity|].
  cbn [pg_total]. split; [|split; [|reflexivity]].
  - unfold slice0. apply Forall_firstn. rewrite Forall_forall.
    intros c Hc. apply filter_In in Hc as [_ Hc].
    unfold status_is in Hc. now apply String.eqb_eq.
  - apply slice0_prefix.
Qed.

Lemma history_filters_by_status_witness :
  exists jobs pg,
    getComputationHistory three_jobs
      {| q_page := None; q_limit := Some (Num 1); q_status := Some "running" |}
    = {| code := 200; body := HistoryBody jobs pg |}
    /\ Forall (fun c => status_str (Computation.status c) = "running") jobs
    /\ (exists n,
          jobs = firstn n
                   (filter (fun c => String.eqb (status_str (Computation.status c))
                                                "running")
                           (JsMap.values (computations three_jobs))))
    /\ pg_total pg
       = Z.of_nat
           (List.length
              (filter (fun c => String.eqb (status_str (Computation.status c))
                                           "running")
                      (JsMap.values (computations three_jobs)))).
Proof.
  apply (history_filters_by_status three_jobs None (Some (Num 1)) "running").
  discriminate.
Defined.

(** C9 as stated fails: of the two running jobs "job-1" and "job-3", page 2
    with limit 1 is "job-3", and the history lists "job-1". *)
Example history_ignores_page :
  history_ids
    (getComputationHistory three_jobs
       {| q_page := Some (Num 2); q_limit := Some (Num 1);
          q_status := Some "running" |})
  = ["job-1"]
  /\ map Computation.id
       (spec_page (with_status (Some running) (JsMap.values (computations three_jobs)))
                  2 1)
     = ["job-3"].
Proof. split; reflexivity. Qed.

(** C9, amended: for every state of the store, every page [p] and every
    limit [l] >= 0, the history lists the first page of the filtered
    sequence, that is the elements at positions 0 through [l - 1] of the
    status-filtered jobs in insertion order, whatever [p] is; [p] is only
    echoed as [pagination.page], next to [l] and the number of filtered
    jobs. *)
Theorem history_returns_first_page
    (s : State) (p : JsNum) (l : nat) (st : option Status) :
  getComputationHistory s
    {| q_page := Some p; q_limit := Some (Num (Z.of_nat l));
       q_status := option_map status_str st |}
  = {| code := 200;
       body := HistoryBody
                 (spec_page (with_status st (JsMap.values (computations s))) 1 l)
                 {| pg_page := p;
                    pg_limit := Num (Z.of_nat l);
                    pg_total :=
                      Z.of_nat (List.length
                                  (with_status st (JsMap.values (computations s)))) |} |}.
Proof.
  unfold getComputationHistory. cbn [q_page q_limit q_status].
  assert (Hf : match option_map status_str st with
               | Some f => if truthy f
                           then filter (status_is f) (JsMap.values (computations s))
                           else JsMap.values (computations s)
               | None => JsMap.values (computations s)
               end = with_status st (JsMap.values (computations s))).
  { destruct st as [x|]; simpl; [|reflexivity].
    rewrite status_str_truthy. apply filter_status_eqb. }
  rewrite Hf. unfold slice0, spec_page.
  replace (Z.of_nat l <? 0) with false by (symmetry; apply Z.ltb_ge; lia).
  rewrite firstn_min. reflexivity.
Qed.

(** C10: in every reachable state every stored job is 'running',
    'completed' or 'cancelled' (never 'pending', never 'failed'), and the
    metrics report has total = running + completed + failed + cancelled with
    failed = 0. *)
Theorem only_assigned_statuses (s : State) :
  reachable s ->
  Forall (fun c => Computation.status c = running
                   \/ Computation.status c = completed
                   \/ Computation.status c = cancelled)
         (JsMap.values (computations s))
  /\ getMetrics s = {| code := 200; body := MetricsBody (metricsOf s) |}
  /\ Metrics.total (metricsOf s)
     = Metrics.running (metricsOf s) + Metrics.completed (metricsOf s)
       + Metrics.failed (metricsOf s) + Metrics.cancelled (metricsOf s)
  /\ Metrics.failed (metricsOf s) = 0.
Proof.
  intros Hr.
  assert (Hall : Forall assigned_status (JsMap.values (computations s))).
  { eapply Forall_impl; [|apply (reachable_jobs s Hr)].
    intros c (k & _ & Hst & _). exact Hst. }
  destruct (count_status_partition _ Hall) as (_ & Hf & Hsum).
  split; [exact Hall|]. split; [reflexivity|].
  cbn [metricsOf Metrics.total Metrics.running Metrics.completed
       Metrics.failed Metrics.cancelled].
  split; lia.
Qed.

Lemma only_assigned_statuses_witness :
  Forall (fun c => Computation.status c = running
                   \/ Computation.status c = completed
                   \/ Computation.status c = cancelled)
         (JsMap.values (computations three_jobs))
  /\ getMetrics three_jobs
     = {| code := 200; body := MetricsBody (metricsOf three_jobs) |}
  /\ Metrics.total (metricsOf three_jobs)
     = Metrics.running (metricsOf three_jobs)
       + Metrics.completed (metricsOf three_jobs)
       + Metrics.failed (metricsOf three_jobs)
       + Metrics.cancelled (metricsOf three_jobs)
  /\ Metrics.failed (metricsOf three_jobs) = 0.
Proof.
  apply (only_assigned_statuses three_jobs).
  exists [Recompute "job-1" 0 d1_request; Recompute "job-2" 10 d1_request;
          Recompute "job-3" 20 d1_request; TimerFires 1 5010 (1 # 2)].
  reflexivity.
Defined.

(** ** More about the reachable states *)

Lemma get_In_keys {V : Type} (m : JsMap.t V) (k : string) :
  In k (JsMap.keys m) <-> JsMap.get m k <> None.
Proof.
  unfold JsMap.keys. induction m as [|[k' v] m IH]; simpl.
  - split; [intros [] | congruence].
  - destruct (String.eqb_spec k' k) as [->|Hne].
    + split; [discriminate | auto].
    + rewrite <- IH. split; [intros [H|H]; [contradiction | exact H] | auto].
Qed.

Lemma keys_set_fresh {V : Type} (m : JsMap.t V) (k : string) (v : V) :
  JsMap.get m k = None -> JsMap.keys (JsMap.set m k v) = JsMap.keys m ++ [k].
Proof.
  intros H. rewrite set_fresh by exact H. unfold JsMap.keys. now rewrite map_app.
Qed.

Lemma NoDup_keys_set {V : Type} (m : JsMap.t V) (k : string) (v : V) :
  NoDup (JsMap.keys m) -> NoDup (JsMap.keys (JsMap.set m k v)).
Proof.
  intros Hnd. destruct (JsMap.get m k) as [v0|] eqn:Hg.
  - now rewrite (keys_set_present m k v v0 Hg).
  - rewrite keys_set_fresh by exact Hg.
    apply NoDup_Add with (a := k) (l := JsMap.keys m).
    + rewrite <- (app_nil_r (JsMap.keys m)) at 1. apply Add_app.
    + split; [exact Hnd|]. rewrite get_In_keys. congruence.
Qed.

Lemma set_set {V : Type} (m : JsMap.t V) (k : string) (v v' : V) :
  JsMap.set (JsMap.set m k v) k v' = JsMap.set m k v'.
Proof.
  induction m as [|[k' v0] m IH]; simpl.
  - now rewrite String.eqb_refl.
  - destruct (String.eqb k' k) eqn:E; simpl; rewrite E; [reflexivity|].
    now rewrite IH.
Qed.

Lemma values_keys_id (m : JsMap.t Computation.t) :
  Forall job_ok m -> map Computation.id (JsMap.values m) = JsMap.keys m.
Proof.
  unfold JsMap.values, JsMap.keys.
  induction 1 as [|[k c] m Hjob _ IH]; simpl; [reflexivity|].
  destruct Hjob as (Hid & _). simpl in Hid. now rewrite Hid, IH.
Qed.

Lemma In_values_get {V : Type} (m : JsMap.t V) (v : V) :
  NoDup (JsMap.keys m) -> In v (JsMap.values m) ->
  exists k, JsMap.get m k = Some v.
Proof.
  unfold JsMap.values, JsMap.keys.
  induction m as [|[k' v'] m IH]; simpl; intros Hnd Hin; [contradiction|].
  destruct Hin as [H|H].
  - exists k'. rewrite String.eqb_refl. now subst.
  - inversion Hnd as [|? ? Hnot Hnd']; subst.
    destruct (IH Hnd' H) as (k & Hk). exists k.
    destruct (String.eqb_spec k' k) as [->|]; [|exact Hk].
    exfalso. apply Hnot. apply (proj2 (get_In_keys m k)). congruence.
Qed.

Lemma drop_keeps {A B : Type} (f : A -> B) (l : list A) (n : nat) (a : A) (x : B) :
  nth_error l n = Some a -> In x (map f l) -> x <> f a ->
  In x (map f (firstn n l ++ skipn (S n) l)).
Proof.
  intros Hn Hin Hne. rewrite (nth_error_cut l n a Hn) in Hin.
  rewrite map_app in Hin. simpl in Hin. rewrite map_app.
  apply in_app_or in Hin as [H|[H|H]]; apply in_or_app; auto.
  congruence.
Qed.

Lemma timer_due_ok_set m k c c' t :
  timer_due_ok m t -> JsMap.get m k = Some c ->
  Computation.startedAt c' = Computation.startedAt c ->
  timer_due_ok (JsMap.set m k c') t.
Proof.
  intros (c0 & Hg & Hd) Hk Hs.
  destruct (String.eqb_spec k (Timer.id t)) as [->|Hne].
  - exists c'. rewrite get_set_same. split; [reflexivity|]. congruence.
  - exists c0. rewrite get_set_other; auto.
Qed.

Lemma unit_interval_bounds rnd :
  unit_interval rnd = true -> (0 <= rnd)%Q /\ (rnd < 1)%Q.
Proof.
  unfold unit_interval. intros H. apply andb_prop in H as [H0 H1]. split.
  - now apply Qle_bool_iff.
  - apply Qnot_le_lt. intros Hle. apply Qle_bool_iff in Hle.
    rewrite Hle in H1. discriminate.
Qed.

Lemma Inv2_init : Inv2 init.
Proof.
  split; simpl; try constructor; try apply Inv_init. intros k c H. discriminate.
Qed.

Lemma Inv2_triggerRecomputation s uuid now b :
  Inv2 s -> fresh (computations s) uuid = true ->
  Inv2 (fst (triggerRecomputation s uuid now b)).
Proof.
  intros [HI Hk Hs Hd Hp Hsch] Hf.
  pose proof (Inv_triggerRecomputation s uuid now b HI Hf) as HI'.
  unfold fresh in Hf.
  destruct (JsMap.get (computations s) uuid) eqn:Hg; [discriminate|].
  split; simpl; auto.
  - now apply NoDup_keys_set.
  - apply Forall_set; auto. intros k' _. unfold job_shape; simpl.
    split; [reflexivity|]. split; [congruence | discriminate].
  - apply Forall_app. split.
    + rewrite Forall_forall in *. intros t Hin.
      destruct (Hd t Hin) as (c & Hc & Hdue). exists c.
      rewrite get_set_other; [auto | congruence].
    + constructor; [|constructor]. eexists. simpl. rewrite get_set_same.
      split; reflexivity.
  - intros k c Hc Hnone. rewrite map_app. apply in_or_app.
    destruct (String.eqb_spec uuid k) as [->|Hne].
    + right. simpl. auto.
    + left. rewrite get_set_other in Hc by exact Hne. eauto.
Qed.

Lemma Inv2_completionCallback s k t now rnd :
  Inv2 s -> nth_error (timers s) k = Some t -> unit_interval rnd = true ->
  Inv2 (completionCallback (drop_timer k s) t now rnd).
Proof.
  intros [HI Hk Hs Hd Hp Hsch] Hn Hrnd.
  pose proof (Inv_completionCallback s k t now rnd HI Hn) as HI'.
  destruct HI as [Hj Hnd Ht].
  destruct (drop_nodup Timer.id _ _ _ Hnd Hn) as [_ Hne].
  rewrite Forall_forall in Ht.
  destruct (Ht t (nth_error_In _ _ Hn)) as (comp & Hg & Hnone & Hpar).
  unfold completionCallback in *. cbn [drop_timer computations] in *.
  rewrite Hg in *. split; simpl; auto.
  - now rewrite (keys_set_present _ _ _ _ Hg).
  - apply Forall_set; auto. intros k' _. unfold job_shape; simpl.
    split; [discriminate|]. split; [reflexivity|].
    intros r [= <-]. simpl.
    destruct (unit_interval_bounds rnd Hrnd) as [H0 H1].
    rewrite Hpar. repeat split; auto; lra.
  - rewrite Forall_forall in *. intros t' Hin.
    eapply timer_due_ok_set; eauto. apply Hd. now apply drop_incl in Hin.
  - intros k' c Hc Hnone'.
    destruct (String.eqb_spec (Timer.id t) k') as [E|E].
    + rewrite E, get_set_same in Hc. injection Hc as <-. discriminate.
    + rewrite get_set_other in Hc by exact E.
      eapply drop_keeps; eauto.
Qed.

Lemma Inv2_cancelComputation s cid now :
  Inv2 s -> Inv2 (fst (cancelComputation s cid now)).
Proof.
  intros [HI Hk Hs Hd Hp Hsch].
  pose proof (Inv_cancelComputation s cid now HI) as HI'.
  unfold cancelComputation in *.
  destruct (JsMap.get (computations s) cid) as [comp|] eqn:Hg; simpl in *;
    [|split; auto].
  pose proof (Forall_get _ _ _ _ Hs Hg) as Hshape.
  split; simpl; auto.
  - now rewrite (keys_set_present _ _ _ _ Hg).
  - apply Forall_set; auto.
  - rewrite Forall_forall in *. intros t Hin.
    eapply timer_due_ok_set; eauto.
  - intros k c Hc Hnone.
    destruct (String.eqb_spec cid k) as [E|E].
    + rewrite E, get_set_same in Hc. injection Hc as <-. simpl in Hnone.
      rewrite <- E. eauto.
    + rewrite get_set_other in Hc by exact E. eauto.
Qed.

Lemma Inv2_step s e s' r : Inv2 s -> step s e = Some (s', r) -> Inv2 s'.
Proof.
  intros HI. destruct e; cbn [step].
  - destruct (fresh (computations s) uuid) eqn:Hf; [|discriminate].
    pose proof (Inv2_triggerRecomputation s uuid now b HI Hf) as H.
    destruct (triggerRecomputation s uuid now b). intros [= <- <-]. exact H.
  - destruct (nth_error (timers s) k) as [t|] eqn:Hk; [|discriminate].
    destruct (Timer.due t <=? now); [|discriminate]. cbn [andb].
    destruct (unit_interval rnd) eqn:Hr; [|discriminate]. intros [= <- <-].
    now apply Inv2_completionCallback.
  - now intros [= <- <-].
  - now intros [= <- <-].
  - pose proof (Inv2_cancelComputation s computationId now HI) as H.
    destruct (cancelComputation s computationId now). intros [= <- <-]. exact H.
  - now intros [= <- <-].
  - destruct (fresh (schedules s) uuid); [|discriminate].
    intros [= <- <-]. destruct HI as [[] ? ? ? ? ?]. split; simpl; auto.
    + split; auto.
    + apply Forall_set; auto. intros k' ->. repeat split.
  - now intros [= <- <-].
Qed.

Lemma Inv2_run evs : forall s s', Inv2 s -> run s evs = Some s' -> Inv2 s'.
Proof.
  induction evs as [|e evs IH]; simpl; intros s s' HI H.
  - now injection H as <-.
  - destruct (step s e) as [[s1 r]|] eqn:Hs; [|discriminate].
    eapply IH; [|exact H]. eapply Inv2_step; eauto.
Qed.

Lemma reachable_Inv2 s : reachable s -> Inv2 s.
Proof. intros [evs H]. eapply Inv2_run; [apply Inv2_init | exact H]. Qed.

(** X1: in every reachable state the stored jobs have pairwise distinct ids,
    and each job is stored under its own id. *)
Theorem job_ids_unique (s : State) :
  reachable s ->
  NoDup (map Computation.id (JsMap.values (computations s)))
  /\ forall k c, JsMap.get (computations s) k = Some c -> Computation.id c = k.
Proof.
  intros Hr. destruct (reachable_Inv2 s Hr) as [[Hj _ _] Hk _ _ _ _].
  split.
  - now rewrite values_keys_id.
  - intros k c Hg. now destruct (Forall_get _ _ _ _ Hj Hg) as (Hid & _).
Qed.

Lemma job_ids_unique_witness :
  NoDup (map Computation.id (JsMap.values (computations three_jobs)))
  /\ forall k c, JsMap.get (computations three_jobs) k = Some c ->
                 Computation.id c = k.
Proof.
  apply (job_ids_unique three_jobs).
  exists [Recompute "job-1" 0 d1_request; Recompute "job-2" 10 d1_request;
          Recompute "job-3" 20 d1_request; TimerFires 1 5010 (1 # 2)].
  reflexivity.
Defined.

Lemma kept_refl j : kept j j.
Proof. repeat split; auto. lia. Qed.

Lemma kept_trans j1 j2 j3 : kept j1 j2 -> kept j2 j3 -> kept j1 j3.
Proof.
  intros (A1 & A2 & A3 & A4 & A5 & A6) (B1 & B2 & B3 & B4 & B5 & B6).
  repeat split; try congruence. lia.
Qed.

Lemma step_kept s e s' r :
  Inv2 s -> step s e = Some (s', r) ->
  (exists more, JsMap.keys (computations s') = JsMap.keys (computations s) ++ more)
  /\ forall cid j, JsMap.get (computations s) cid = Some j ->
       exists j', JsMap.get (computations s') cid = Some j' /\ kept j j'.
Proof.
  intros HI Hs.
  assert (Hsame :
    (exists more, JsMap.keys (computations s) = JsMap.keys (computations s) ++ more)
    /\ forall cid j, JsMap.get (computations s) cid = Some j ->
         exists j', JsMap.get (computations s) cid = Some j' /\ kept j j').
  { split; [exists []; now rewrite app_nil_r|].
    intros cid j Hg. exists j. split; [exact Hg | apply kept_refl]. }
  destruct e; cbn [step] in Hs.
  - unfold fresh in Hs.
    destruct (JsMap.get (computations s) uuid) eqn:Hu; [discriminate|].
    injection Hs as <- _. simpl. split.
    + exists [uuid]. now apply keys_set_fresh.
    + intros cid j Hg. exists j. rewrite get_set_other by congruence.
      split; [exact Hg | apply kept_refl].
  - destruct (nth_error (timers s) k) as [t|] eqn:Hk; [|discriminate].
    destruct (_ && _); [|discriminate]. injection Hs as <- _.
    unfold completionCallback. simpl.
    destruct (JsMap.get (computations s) (Timer.id t)) as [comp|] eqn:Hc;
      [|exact Hsame].
    simpl. split.
    + exists []. rewrite app_nil_r. eapply keys_set_present; eauto.
    + intros cid j Hg. destruct (String.eqb_spec (Timer.id t) cid) as [E|Hne].
      * rewrite E in *. rewrite get_set_same. eexists; split; [reflexivity|].
        assert (comp = j) as -> by congruence.
        destruct HI as [_ _ Hsh _ _ _].
        destruct (Forall_get _ _ _ _ Hsh Hg) as (P0 & P100 & _). simpl in *.
        repeat split; simpl; auto.
        destruct (Computation.completedAt j) eqn:Ec.
        -- rewrite P100 by discriminate. lia.
        -- rewrite P0 by reflexivity. lia.
      * exists j. rewrite get_set_other by exact Hne.
        split; [exact Hg | apply kept_refl].
  - same_store Hs Hsame.
  - same_store Hs Hsame.
  - unfold cancelComputation in Hs.
    destruct (JsMap.get (computations s) computationId) as [comp|] eqn:Hc;
      injection Hs as <- _; [|exact Hsame].
    simpl. split.
    + exists []. rewrite app_nil_r. eapply keys_set_present; eauto.
    + intros cid j Hg.
      destruct (String.eqb_spec computationId cid) as [E|Hne].
      * rewrite E in *. rewrite get_set_same. eexists; split; [reflexivity|].
        assert (comp = j) as -> by congruence.
        repeat split; simpl; auto. lia.
      * exists j. rewrite get_set_other by exact Hne.
        split; [exact Hg | apply kept_refl].
  - same_store Hs Hsame.
  - destruct (fresh (schedules s) uuid); [|discriminate].
    same_store Hs Hsame.
  - same_store Hs Hsame.
Qed.

Lemma run_kept evs : forall s s',
  Inv2 s -> run s evs = Some s' ->
  (exists more, JsMap.keys (computations s') = JsMap.keys (computations s) ++ more)
  /\ forall cid j, JsMap.get (computations s) cid = Some j ->
       exists j', JsMap.get (computations s') cid = Some j' /\ kept j j'.
Proof.
  induction evs as [|e evs IH]; simpl; intros s s' HI Hrun.
  - injection Hrun as <-. split; [exists []; now rewrite app_nil_r|].
    intros cid j Hg. exists j. split; [exact Hg | apply kept_refl].
  - destruct (step s e) as [[s1 r]|] eqn:Hs; [|discriminate].
    destruct (step_kept _ _ _ _ HI Hs) as [[m1 Hk1] Hj1].
    destruct (IH s1 s' (Inv2_step _ _ _ _ HI Hs) Hrun) as [[m2 Hk2] Hj2].
    split.
    + exists (m1 ++ m2). now rewrite Hk2, Hk1, app_assoc.
    + intros cid j Hg. destruct (Hj1 cid j Hg) as (j1 & Hg1 & K1).
      destruct (Hj2 cid j1 Hg1) as (j2 & Hg2 & K2).
      exists j2. split; [exact Hg2 | eapply kept_trans; eauto].
Qed.

(** X2: no turn of the event loop removes, reorders or re-identifies a job.
    Over any run from a reachable state the ids already stored stay at the
    front of the store in the same order, and every stored job keeps its
    id, dataset, parameters, options and start time, while its progress does
    not go down. *)
Theorem stored_jobs_are_kept (s s' : State) (evs : list Event) :
  reachable s ->
  run s evs = Some s' ->
  (exists more,
     JsMap.keys (computations s') = JsMap.keys (computations s) ++ more)
  /\ forall cid j, JsMap.get (computations s) cid = Some j ->
       exists j',
         JsMap.get (computations s') cid = Some j'
         /\ Computation.id j' = Computation.id j
         /\ Computation.datasetId j' = Computation.datasetId j
         /\ Computation.parameters j' = Computation.parameters j
         /\ Computation.options j' = Computation.options j
         /\ Computation.startedAt j' = Computation.startedAt j
         /\ Computation.progress j <= Computation.progress j'.
Proof.
  intros Hr Hrun. exact (run_kept evs s s' (reachable_Inv2 s Hr) Hrun).
Qed.

Lemma stored_jobs_are_kept_witness :
  (exists more,
     JsMap.keys (computations cancelled_twice)
     = JsMap.keys (computations one_running) ++ more)
  /\ forall cid j, JsMap.get (computations one_running) cid = Some j ->
       exists j',
         JsMap.get (computations cancelled_twice) cid = Some j'
         /\ Computation.id j' = Computation.id j
         /\ Computation.datasetId j' = Computation.datasetId j
         /\ Computation.parameters j' = Computation.parameters j
         /\ Computation.options j' = Computation.options j
         /\ Computation.startedAt j' = Computation.startedAt j
         /\ Computation.progress j <= Computation.progress j'.
Proof.
  apply (stored_jobs_are_kept one_running cancelled_twice
           [TimerFires 0 5000 (1 # 2); Cancel "job-1" 6000; Cancel "job-1" 7000]).
  - exists [Recompute "job-1" 0 d1_request]. reflexivity.
  - reflexivity.
Defined.

(** X3: in every reachable state, what [getComputationStatus] reports for a
    stored job is coherent: it answers 200 with the job's status, progress,
    start and completion time; without a completion time the progress is 0
    and the status is not 'completed'; with a completion time the progress
    is 100 and the status is not 'running'. *)
Theorem status_report_is_coherent
    (s : State) (cid : string) (j : Computation.t) :
  reachable s ->
  JsMap.get (computations s) cid = Some j ->
  getComputationStatus s cid
  = {| code := 200;
       body := StatusBody (Computation.status j) (Computation.progress j)
                 (Computation.startedAt j) (Computation.completedAt j) |}
  /\ (Computation.completedAt j = None ->
      Computation.progress j = 0 /\ Computation.status j <> completed)
  /\ (Computation.completedAt j <> None ->
      Computation.progress j = 100 /\ Computation.status j <> running).
Proof.
  intros Hr Hg. destruct (reachable_Inv2 s Hr) as [[Hj _ _] _ Hsh _ _ _].
  unfold getComputationStatus. rewrite Hg. split; [reflexivity|].
  destruct (Forall_get _ _ _ _ Hj Hg) as (_ & _ & _ & _ & Hc & Hrun).
  destruct (Forall_get _ _ _ _ Hsh Hg) as (P0 & P100 & _). simpl in *.
  split; intros H.
  - split; [now apply P0|]. intros E. now apply (Hc E).
  - split; [now apply P100|]. intros E. now destruct (Hrun E).
Qed.

Lemma status_report_is_coherent_witness :
  getComputationStatus one_completed "job-1"
  = {| code := 200;
       body := StatusBody (Computation.status completed_job)
                 (Computation.progress completed_job)
                 (Computation.startedAt completed_job)
                 (Computation.completedAt completed_job) |}
  /\ (Computation.completedAt completed_job = None ->
      Computation.progress completed_job = 0
      /\ Computation.status completed_job <> completed)
  /\ (Computation.completedAt completed_job <> None ->
      Computation.progress completed_job = 100
      /\ Computation.status completed_job <> running).
Proof.
  apply (status_report_is_coherent one_completed "job-1" completed_job).
  - exists [Recompute "job-1" 0 d1_request; TimerFires 0 5000 (1 # 2)].
    reflexivity.
  - reflexivity.
Defined.

(** X4: in every reachable state, whenever [getComputationResults] answers
    200 the body carries results and a completion time: convergence is
    [true], the accuracy lies in [0.8, 1], and the iterations are the
    requested ones, or 100 when none or 0 were requested (so never 0). *)
Theorem results_answer_is_complete (s : State) (cid : string) :
  reachable s ->
  code (getComputationResults s cid) = 200 ->
  exists j r d,
    JsMap.get (computations s) cid = Some j
    /\ getComputationResults s cid
       = {| code := 200;
            body := ResultsBody (Some r)
                      {| md_computationId := cid;
                         md_datasetId := Computation.datasetId j;
                         md_completedAt := Some d |} |}
    /\ Results.convergence r = true
    /\ (8 # 10 <= Results.accuracy r)%Q /\ (Results.accuracy r <= 1)%Q
    /\ Results.iterations r
       = match Computation.parameters j with
         | Some p =>
             match Parameters.iterations p with
             | Some n => if n =? 0 then 100 else n
             | None => 100
             end
         | None => 100
         end
    /\ Results.iterations r <> 0.
Proof.
  intros Hr. destruct (reachable_Inv2 s Hr) as [[Hj _ _] _ Hsh _ _ _].
  unfold getComputationResults.
  destruct (JsMap.get (computations s) cid) as [j|] eqn:Hg; [|discriminate].
  destruct (Forall_get _ _ _ _ Hj Hg) as (Hid & _ & _ & Hres & Hc & _).
  destruct (Forall_get _ _ _ _ Hsh Hg) as (_ & _ & Hr3). simpl in *.
  destruct (Computation.status j) eqn:Est; simpl; try discriminate.
  intros _.
  destruct (Computation.completedAt j) as [d|] eqn:Ed; [|now destruct Hc].
  destruct (Computation.results j) as [r|] eqn:Er;
    [|destruct Hres as [_ Hres]; discriminate (Hres eq_refl)].
  destruct (Hr3 r eq_refl) as (Hcv & Hit & Ha0 & Ha1).
  exists j, r, d. rewrite Hid. repeat split; auto.
  rewrite Hit. unfold iterations_or_default.
  destruct (Computation.parameters j) as [p|]; [|discriminate].
  destruct (Parameters.iterations p) as [n|]; [|discriminate].
  destruct (Z.eqb_spec n 0); [discriminate | assumption].
Qed.

Lemma results_answer_is_complete_witness :
  exists j r d,
    JsMap.get (computations completed_250) "job-9" = Some j
    /\ getComputationResults completed_250 "job-9"
       = {| code := 200;
            body := ResultsBody (Some r)
                      {| md_computationId := "job-9";
                         md_datasetId := Computation.datasetId j;
                         md_completedAt := Some d |} |}
    /\ Results.convergence r = true
    /\ (8 # 10 <= Results.accuracy r)%Q /\ (Results.accuracy r <= 1)%Q
    /\ Results.iterations r
       = match Computation.parameters j with
         | Some p =>
             match Parameters.iterations p with
             | Some n => if n =? 0 then 100 else n
             | None => 100
             end
         | None => 100
         end
    /\ Results.iterations r <> 0.
Proof.
  apply (results_answer_is_complete completed_250 "job-9").
  - exists [Recompute "job-9" 0 with_iterations; TimerFires 0 5000 (1 # 4)].
    reflexivity.
  - reflexivity.
Defined.

(** X5: in every reachable state a stored job has a pending completion
    callback exactly when it has no completion time (cancelled jobs
    included); no job has two pending callbacks, and the pending callback of
    a job is due 5000 ms after the job's start time and holds the job's
    parameters. *)
Theorem pending_callbacks_match_uncompleted_jobs
    (s : State) (cid : string) (j : Computation.t) :
  reachable s ->
  JsMap.get (computations s) cid = Some j ->
  (Computation.completedAt j = None <-> In cid (map Timer.id (timers s)))
  /\ NoDup (map Timer.id (timers s))
  /\ forall t, In t (timers s) -> Timer.id t = cid ->
       Timer.due t = Computation.startedAt j + 5000
       /\ Timer.parameters t = Computation.parameters j.
Proof.
  intros Hr Hg. destruct (reachable_Inv2 s Hr) as [[_ Hnd Ht] _ _ Hd Hp _].
  rewrite Forall_forall in Ht, Hd. split; [split|split].
  - intros Hnone. eapply Hp; eauto.
  - intros Hin. apply in_map_iff in Hin as (t & Hid & Hin).
    destruct (Ht t Hin) as (c & Hc & Hnone & _). congruence.
  - exact Hnd.
  - intros t Hin Hid.
    destruct (Ht t Hin) as (c & Hc & _ & Hpar).
    destruct (Hd t Hin) as (c' & Hc' & Hdue).
    rewrite Hid in *. split; congruence.
Qed.

Lemma pending_callbacks_match_uncompleted_jobs_witness :
  (Computation.completedAt running_job = None
   <-> In "job-1" (map Timer.id (timers one_running)))
  /\ NoDup (map Timer.id (timers one_running))
  /\ forall t, In t (timers one_running) -> Timer.id t = "job-1" ->
       Timer.due t = Computation.startedAt running_job + 5000
       /\ Timer.parameters t = Computation.parameters running_job.
Proof.
  apply (pending_callbacks_match_uncompleted_jobs one_running "job-1" running_job).
  - exists [Recompute "job-1" 0 d1_request]. reflexivity.
  - reflexivity.
Defined.

(** X6: cancelling hides the results.  After [cancelComputation] on a stored
    job, [getComputationResults] for that job answers 202 'Computation still
    in progress' with status 'cancelled' and the old progress, without a
    results field, also when the job had completed and its results are still
    stored. *)
Theorem cancel_hides_results
    (s : State) (cid : string) (now : Date) (j : Computation.t) :
  JsMap.get (computations s) cid = Some j ->
  getComputationResults (fst (cancelComputation s cid now)) cid
  = {| code := 202;
       body := InProgressBody "Computation still in progress" cancelled
                 (Computation.progress j) |}
  /\ exists j',
       JsMap.get (computations (fst (cancelComputation s cid now))) cid = Some j'
       /\ Computation.results j' = Computation.results j.
Proof.
  intros Hg. unfold cancelComputation. rewrite Hg.
  unfold getComputationResults. cbn [fst with_computations computations].
  rewrite get_set_same. split; [reflexivity|]. eexists. split; reflexivity.
Qed.

Lemma cancel_hides_results_witness :
  getComputationResults (fst (cancelComputation one_completed "job-1" 6000)) "job-1"
  = {| code := 202;
       body := InProgressBody "Computation still in progress" cancelled
                 (Computation.progress completed_job) |}
  /\ exists j',
       JsMap.get (computations (fst (cancelComputation one_completed "job-1" 6000)))
                 "job-1" = Some j'
       /\ Computation.results j' = Computation.results completed_job.
Proof.
  apply (cancel_hides_results one_completed "job-1" 6000 completed_job).
  reflexivity.
Defined.

(** X7: a repeated cancel only moves the cancellation time.  For every state
    and id, cancelling at [t1] and again at [t2] leaves the state that a
    single cancel at [t2] leaves, and both calls give the same answer. *)
Theorem cancel_twice_is_cancel_once (s : State) (cid : string) (t1 t2 : Date) :
  fst (cancelComputation (fst (cancelComputation s cid t1)) cid t2)
  = fst (cancelComputation s cid t2)
  /\ snd (cancelComputation (fst (cancelComputation s cid t1)) cid t2)
     = snd (cancelComputation s cid t1).
Proof.
  unfold cancelComputation.
  destruct (JsMap.get (computations s) cid) as [j|] eqn:Hg;
    cbn [fst snd with_computations computations schedules timers].
  - rewrite get_set_same. cbn [fst snd with_computations computations
      schedules timers Computation.id Computation.datasetId
      Computation.startedAt Computation.parameters Computation.options
      Computation.progress Computation.completedAt Computation.results
      Computation.error].
    rewrite set_set. split; reflexivity.
  - rewrite Hg. split; reflexivity.
Qed.

Lemma length_slice0 {A : Type} (l : list A) (e : JsNum) :
  Z.of_nat (List.length (slice0 l e))
  = match e with
    | NaN => 0
    | Num z =>
        if z <? 0 then Z.max (Z.of_nat (List.length l) + z) 0
        else Z.min z (Z.of_nat (List.length l))
    end.
Proof.
  unfold slice0. rewrite length_firstn.
  destruct e as [|z].
  - change (0 <? 0) with false. cbv iota. lia.
  - destruct (Z.ltb_spec z 0); lia.
Qed.

(** X8: how many jobs a history response lists.  With [total] the number of
    jobs that pass the status filter: the default limit is 20; a limit
    [z >= 0] lists [min z total] jobs; a limit that is not a number lists
    none; a negative limit [z] lists all but the last [-z]; and never more
    than [total] are listed. *)
Theorem history_length (s : State) (q : HistoryQuery) :
  let r := getComputationHistory s q in
  let listed := Z.of_nat (List.length (history_jobs r)) in
  let total := history_total r in
  listed <= total
  /\ (q_limit q = None -> listed = Z.min 20 total)
  /\ (q_limit q = Some NaN -> listed = 0)
  /\ (forall z, q_limit q = Some (Num z) -> 0 <= z -> listed = Z.min z total)
  /\ (forall z, q_limit q = Some (Num z) -> z < 0 -> listed = Z.max (total + z) 0).
Proof.
  unfold getComputationHistory, history_jobs, history_total.
  cbn [body pg_total]. rewrite length_slice0.
  set (n := Z.of_nat (List.length _)).
  assert (0 <= n) by (unfold n; lia).
  split; [|split; [|split; [|split]]].
  - destruct (q_limit q) as [[|z]|];
      [ lia
      | destruct (Z.ltb_spec z 0); lia
      | change (20 <? 0) with false; cbv iota; lia ].
  - intros ->. change (20 <? 0) with false. cbv iota. reflexivity.
  - intros ->. reflexivity.
  - intros z -> Hz. destruct (Z.ltb_spec z 0); lia.
  - intros z -> Hz. destruct (Z.ltb_spec z 0); lia.
Qed.

Lemma step_lengths s e s' r :
  step s e = Some (s', r) ->
  List.length (computations s')
  = (List.length (computations s) + List.length (submissions [e]))%nat
  /\ List.length (schedules s')
     = (List.length (schedules s) + List.length (schedulings [e]))%nat.
Proof.
  destruct e; cbn [step submissions schedulings filter List.length];
    rewrite ?Nat.add_0_r.
  - unfold fresh. destruct (JsMap.get (computations s) uuid) eqn:Hu;
      [discriminate|].
    intros [= <- _]. simpl. rewrite set_fresh by exact Hu.
    rewrite length_app. simpl. auto.
  - destruct (nth_error (timers s) k) as [t|]; [|discriminate].
    destruct (_ && _); [|discriminate]. intros [= <- _].
    unfold completionCallback. simpl.
    destruct (JsMap.get (computations s) (Timer.id t)) eqn:Hg; simpl; auto.
    erewrite length_set_present; eauto.
  - intros [= <- _]. auto.
  - intros [= <- _]. auto.
  - unfold cancelComputation.
    destruct (JsMap.get (computations s) computationId) eqn:Hg;
      intros [= <- _]; simpl; auto.
    erewrite length_set_present; eauto.
  - intros [= <- _]. auto.
  - unfold fresh. destruct (JsMap.get (schedules s) uuid) eqn:Hu;
      [discriminate|].
    intros [= <- _]. simpl. rewrite set_fresh by exact Hu.
    rewrite length_app. simpl. auto.
  - intros [= <- _]. auto.
Qed.

Lemma run_lengths evs : forall s s',
  run s evs = Some s' ->
  List.length (computations s')
  = (List.length (computations s) + List.length (submissions evs))%nat
  /\ List.length (schedules s')
     = (List.length (schedules s) + List.length (schedulings evs))%nat.
Proof.
  induction evs as [|e evs IH]; intros s s' Hrun; cbn [run] in Hrun.
  - injection Hrun as <-. unfold submissions, schedulings. simpl. lia.
  - destruct (step s e) as [[s1 r]|] eqn:Hs; [|discriminate].
    destruct (step_lengths _ _ _ _ Hs) as [H1 H2].
    destruct (IH _ _ Hrun) as [H3 H4].
    change (e :: evs) with ([e] ++ evs).
    unfold submissions, schedulings in *. rewrite !filter_app, !length_app.
    lia.
Qed.

(** X9: nothing is ever deleted.  After any run of the event loop from the
    empty controller, the metrics report counts as [total] exactly the
    recompute requests of the run, and as [activeSchedules] exactly its
    schedule requests. *)
Theorem metrics_count_requests (evs : list Event) (s : State) :
  run init evs = Some s ->
  Metrics.total (metricsOf s) = Z.of_nat (List.length (submissions evs))
  /\ Metrics.activeSchedules (metricsOf s)
     = Z.of_nat (List.length (schedulings evs)).
Proof.
  intros Hrun. destruct (run_lengths evs init s Hrun) as [H1 H2].
  cbn [metricsOf Metrics.total Metrics.activeSchedules].
  unfold JsMap.size, JsMap.values. rewrite length_map, H1, H2. simpl. auto.
Qed.

Lemma metrics_count_requests_witness :
  Metrics.total (metricsOf cancelled_twice) = 1
  /\ Metrics.activeSchedules (metricsOf cancelled_twice) = 0.
Proof.
  apply (metrics_count_requests
           [Recompute "job-1" 0 d1_request; TimerFires 0 5000 (1 # 2);
            Cancel "job-1" 6000; Cancel "job-1" 7000] cancelled_twice).
  reflexivity.
Defined.

Lemma step_schedules_kept s e s' r k entry :
  step s e = Some (s', r) ->
  JsMap.get (schedules s) k = Some entry ->
  JsMap.get (schedules s') k = Some entry.
Proof.
  intros Hs Hg. destruct e; cbn [step] in Hs.
  - destruct (fresh (computations s) uuid); [|discriminate].
    injection Hs as <- _. exact Hg.
  - destruct (nth_error (timers s) k0) as [t|]; [|discriminate].
    destruct (_ && _); [|discriminate]. injection Hs as <- _.
    unfold completionCallback. simpl.
    destruct (JsMap.get (computations s) (Timer.id t)); exact Hg.
  - injection Hs as <- _. exact Hg.
  - injection Hs as <- _. exact Hg.
  - unfold cancelComputation in Hs.
    destruct (JsMap.get (computations s) computationId);
      injection Hs as <- _; exact Hg.
  - injection Hs as <- _. exact Hg.
  - unfold fresh in Hs. destruct (JsMap.get (schedules s) uuid) eqn:Hu;
      [discriminate|].
    injection Hs as <- _. simpl. rewrite get_set_other; [exact Hg | congruence].
  - injection Hs as <- _. exact Hg.
Qed.

(** X10: a schedule, once created, is never changed.  In every reachable
    state each stored schedule is stored under its own id and is enabled;
    and after any further run of the event loop it is still stored,
    unchanged. *)
Theorem schedules_are_kept (s : State) (k : string) (entry : ScheduleEntry.t) :
  reachable s ->
  JsMap.get (schedules s) k = Some entry ->
  ScheduleEntry.id entry = k
  /\ ScheduleEntry.enabled entry = true
  /\ forall evs s', run s evs = Some s' ->
       JsMap.get (schedules s') k = Some entry.
Proof.
  intros Hr Hg. destruct (reachable_Inv2 s Hr) as [_ _ _ _ _ Hsch].
  destruct (Forall_get _ _ _ _ Hsch Hg) as (H1 & H2). simpl in *.
  repeat split; auto.
  intros evs. clear Hr Hsch. revert s Hg.
  induction evs as [|e evs IH]; simpl; intros s Hg s' Hrun.
  - now injection Hrun as <-.
  - destruct (step s e) as [[s1 r]|] eqn:Hs; [|discriminate].
    pose proof (step_schedules_kept _ _ _ _ _ _ Hs Hg) as Hg1.
    eapply (IH s1); eauto.
Qed.

Lemma schedules_are_kept_witness :
  ScheduleEntry.id daily_entry = "sch-1"
  /\ ScheduleEntry.enabled daily_entry = true
  /\ forall evs s', run one_scheduled evs = Some s' ->
       JsMap.get (schedules s') "sch-1" = Some daily_entry.
Proof.
  apply (schedules_are_kept one_scheduled "sch-1" daily_entry).
  - exists [Schedule "sch-1" 50 51 daily]. reflexivity.
  - reflexivity.
Defined.

(** ** The authentication middleware *)

Lemma includes_In (a : list string) (x : string) : includes a x = true <-> In x a.
Proof.
  unfold includes. rewrite existsb_exists. split.
  - intros (y & Hin & Heq). apply String.eqb_eq in Heq. now subst.
  - intros Hin. exists x. split; [exact Hin | apply String.eqb_refl].
Qed.

Lemma truthy_nonempty (v : string) : truthy v = true <-> v <> "".
Proof.
  unfold truthy. destruct (String.eqb_spec v "") as [->|Hne]; simpl;
    split; intros H; try discriminate; try congruence; auto.
Qed.

Lemma substring_whole (t : string) : String.substring 0 (String.length t) t = t.
Proof. induction t as [|a t IH]; simpl; [reflexivity | now rewrite IH]. Qed.

Lemma bearer_token_strips (t : string) : bearer_token ("Bearer " ++ t)%string = t.
Proof.
  unfold bearer_token. cbn. rewrite Nat.sub_0_r.
  replace (String.prefix "" t) with true by (now destruct t).
  apply substring_whole.
Qed.

(** X11: [requirePermission] on an authenticated request (one with
    [req.user] or [req.apiKey]) hands the request on, unchanged, exactly when
    the permissions held (those of the user followed by those of the API
    key) contain '*' or one of the required permissions.  Otherwise it hands
    nothing on: it throws the TypeError of [new ForbiddenError(...)], so it
    never produces a 403.  With no required permission at all, only '*'
    passes. *)
Theorem requirePermission_decides (permissions : list string) (req : AuthRequest) :
  user req <> None \/ apiKey req <> None ->
  let held :=
    (match user req with Some u => ReqUser.permissions u | None => [] end)
    ++ (match apiKey req with Some k => ReqApiKey.permissions k | None => [] end) in
  (requirePermission permissions req = Called (Next req)
   <-> In "*" held \/ exists p, In p permissions /\ In p held)
  /\ (requirePermission permissions req = Called (Next req)
      \/ requirePermission permissions req = Threw (NotConstructor "ForbiddenError"))
  /\ (permissions = [] ->
      (requirePermission permissions req = Called (Next req) <-> In "*" held)).
Proof.
  intros Hauth held.
  assert (Hdef : requirePermission permissions req =
    if includes held "*" then Called (Next req)
    else if negb (existsb (fun p => includes held p) permissions)
         then Threw (NotConstructor "ForbiddenError")
         else Called (Next req)).
  { unfold requirePermission, held.
    destruct (user req), (apiKey req); try reflexivity.
    destruct Hauth; congruence. }
  rewrite Hdef. clear Hdef.
  destruct (includes held "*") eqn:Estar.
  - apply includes_In in Estar. split; [|split]; auto.
    + split; auto.
    + intros _. split; auto.
  - assert (Hnostar : ~ In "*" held).
    { intros H. apply includes_In in H. congruence. }
    destruct (existsb (fun p => includes held p) permissions) eqn:Eany; simpl.
    + apply existsb_exists in Eany as (p & Hp & Hin). apply includes_In in Hin.
      split; [|split]; auto.
      * split; eauto.
      * intros ->. destruct Hp.
    + split; [|split]; auto.
      * split; [discriminate|]. intros [H|(p & Hp & Hin)]; [contradiction|].
        exfalso. apply includes_In in Hin.
        assert (existsb (fun p => includes held p) permissions = true)
          by (apply existsb_exists; eauto).
        congruence.
      * intros _. split; [discriminate | contradiction].
Qed.

Lemma requirePermission_decides_witness :
  let req := with_apiKey (api_key_request "jug_system_key")
               {| ReqApiKey.key := "jug_system_key";
                  ReqApiKey.tier := "premium";
                  ReqApiKey.permissions := ["read"; "write"; "verify"] |} in
  let held :=
    (match user req with Some u => ReqUser.permissions u | None => [] end)
    ++ (match apiKey req with Some k => ReqApiKey.permissions k | None => [] end) in
  (requirePermission ["compute"] req = Called (Next req)
   <-> In "*" held \/ exists p, In p ["compute"] /\ In p held)
  /\ (requirePermission ["compute"] req = Called (Next req)
      \/ requirePermission ["compute"] req
         = Threw (NotConstructor "ForbiddenError"))
  /\ (["compute"] = [] ->
      (requirePermission ["compute"] req = Called (Next req) <-> In "*" held)).
Proof.
  apply (requirePermission_decides ["compute"]
           (with_apiKey (api_key_request "jug_system_key")
              {| ReqApiKey.key := "jug_system_key";
                 ReqApiKey.tier := "premium";
                 ReqApiKey.permissions := ["read"; "write"; "verify"] |})).
  right. discriminate.
Defined.

(** X12: an API key decides alone.  When the request has a non-empty
    [x-api-key] header, [authenticate] does what [authenticateAPIKey] does,
    whatever the [Authorization] header and [jwt.verify] say: the request is
    handed on exactly when the key is one of the two configured keys; for
    any other key (a key issued by [generateApiKey] included), also next to
    a valid bearer token, [next] receives the TypeError of
    [new UnauthorizedError(...)], not a 401. *)
Theorem api_key_takes_precedence
    (cfg : ApiKeysConfig) (verify : string -> JwtResult) (req : AuthRequest)
    (k : string) :
  x_api_key req = Some k ->
  k <> "" ->
  authenticate cfg verify req = authenticateAPIKey cfg req
  /\ ((exists req', authenticate cfg verify req = Fulfilled (Next req'))
      <-> k = masterKey cfg \/ k = systemKey cfg)
  /\ (k <> masterKey cfg -> k <> systemKey cfg ->
      authenticate cfg verify req
      = Fulfilled (NextError (NotConstructor "UnauthorizedError"))).
Proof.
  intros Hk Hne. apply truthy_nonempty in Hne.
  assert (E : authenticate cfg verify req = authenticateAPIKey cfg req).
  { unfold authenticate, present. rewrite Hk, Hne.
    now rewrite andb_false_r. }
  rewrite E. unfold authenticateAPIKey, authenticateAPIKey_try.
  rewrite Hk, Hne. cbn [negb].
  split; [reflexivity|].
  destruct (String.eqb_spec k (masterKey cfg)) as [Hm|Hm].
  - split; [split; eauto | contradiction].
  - destruct (String.eqb_spec k (systemKey cfg)) as [Hs|Hs].
    + split; [split; eauto | contradiction].
    + split; [|reflexivity]. split.
      * intros (req' & H). discriminate.
      * intros [H|H]; contradiction.
Qed.

Lemma api_key_takes_precedence_witness :
  let req :=
    {| authorization := Some "Bearer tok-alice"; x_api_key := Some "jug_0123";
       user := None; apiKey := None |} in
  authenticate sample_keys sample_verify req = authenticateAPIKey sample_keys req
  /\ ((exists req', authenticate sample_keys sample_verify req
                    = Fulfilled (Next req'))
      <-> "jug_0123" = masterKey sample_keys \/ "jug_0123" = systemKey sample_keys)
  /\ ("jug_0123" <> masterKey sample_keys -> "jug_0123" <> systemKey sample_keys ->
      authenticate sample_keys sample_verify req
      = Fulfilled (NextError (NotConstructor "UnauthorizedError"))).
Proof.
  apply (api_key_takes_precedence sample_keys sample_verify
           {| authorization := Some "Bearer tok-alice";
              x_api_key := Some "jug_0123"; user := None; apiKey := None |}
           "jug_0123").
  - reflexivity.
  - discriminate.
Defined.

Lemma authenticateAPIKey_settles (cfg : ApiKeysConfig) (req : AuthRequest) :
  exists o, authenticateAPIKey cfg req = Fulfilled o
            /\ match o with
               | Next req' =>
                   apiKey req' <> None
                   /\ authorization req' = authorization req
                   /\ x_api_key req' = x_api_key req
               | NextError e => e = NotConstructor "UnauthorizedError"
               end.
Proof.
  unfold authenticateAPIKey, authenticateAPIKey_try.
  destruct (x_api_key req) as [k|] eqn:Hk; [|eexists; split; reflexivity].
  destruct (negb (truthy k)); [eexists; split; reflexivity|].
  destruct (String.eqb k (masterKey cfg)).
  { eexists. split; [reflexivity|]. simpl. repeat split; auto. discriminate. }
  destruct (String.eqb k (systemKey cfg)); [|eexists; split; reflexivity].
  eexists. split; [reflexivity|]. simpl. repeat split; auto. discriminate.
Qed.

Lemma authenticateJWT_cases (verify : string -> JwtResult) (req : AuthRequest) :
  match authenticateJWT verify req with
  | Fulfilled (Next req') =>
      user req' <> None
      /\ authorization req' = authorization req
      /\ x_api_key req' = x_api_key req
      /\ exists h d, authorization req = Some h
                     /\ verify (bearer_token h) = Verified d
  | Fulfilled (NextError e) =>
      e = NotConstructor "UnauthorizedError"
      /\ (present (authorization req) = false
          \/ exists h, authorization req = Some h /\ bearer_token h = "")
  | Rejected e =>
      e = NotConstructor "UnauthorizedError"
      /\ exists h, authorization req = Some h
                   /\ (verify (bearer_token h) = TokenExpiredError
                       \/ verify (bearer_token h) = JsonWebTokenError)
  end.
Proof.
  unfold authenticateJWT, authenticateJWT_try, present.
  destruct (authorization req) as [h|] eqn:Hh; [|split; auto].
  destruct (truthy h) eqn:Th; cbn [negb]; [|split; auto].
  cbv zeta. destruct (truthy (bearer_token h)) eqn:Tt; cbn [negb].
  - destruct (verify (bearer_token h)) eqn:Hv.
    + simpl. repeat split; auto; [discriminate | eauto].
    + split; [reflexivity|]. exists h. auto.
    + split; [reflexivity|]. exists h. auto.
  - split; [reflexivity|]. right. exists h. split; [reflexivity|].
    unfold truthy in Tt. destruct (String.eqb_spec (bearer_token h) "");
      [assumption | discriminate].
Qed.

(** X13: how [authenticate] ends.  It never hands on a 401.  When it hands
    the request on, the request carries [req.user] or [req.apiKey] and its
    credential headers are untouched.  With an [x-api-key] header it always
    calls [next]: with the request, or, for a key that is not configured,
    with the TypeError of [new UnauthorizedError(...)].  With no credential
    header at all its promise is rejected with that TypeError and [next] is
    never called; the same happens whenever the promise is rejected, which
    otherwise is when there is no API key and [jwt.verify] throws. *)
Theorem authenticate_outcomes
    (cfg : ApiKeysConfig) (verify : string -> JwtResult) (req : AuthRequest) :
  match authenticate cfg verify req with
  | Fulfilled (Next req') =>
      (user req' <> None \/ apiKey req' <> None)
      /\ authorization req' = authorization req
      /\ x_api_key req' = x_api_key req
  | Fulfilled (NextError e) => e = NotConstructor "UnauthorizedError"
  | Rejected e =>
      e = NotConstructor "UnauthorizedError"
      /\ present (x_api_key req) = false
      /\ (present (authorization req) = false
          \/ exists h, authorization req = Some h
                       /\ (verify (bearer_token h) = TokenExpiredError
                           \/ verify (bearer_token h) = JsonWebTokenError))
  end
  /\ (present (authorization req) = false -> present (x_api_key req) = false ->
      authenticate cfg verify req = Rejected (NotConstructor "UnauthorizedError"))
  /\ (present (x_api_key req) = true ->
      exists o, authenticate cfg verify req = Fulfilled o).
Proof.
  unfold authenticate.
  destruct (present (authorization req)) eqn:Pa,
           (present (x_api_key req)) eqn:Pk; cbn [negb andb].
  - destruct (authenticateAPIKey_settles cfg req) as (o & -> & Ho).
    split; [|split; [discriminate | eauto]].
    destruct o as [req'|e]; [|exact Ho]. destruct Ho as (H1 & H2 & H3). auto.
  - pose proof (authenticateJWT_cases verify req) as H.
    split; [|split; discriminate].
    destruct (authenticateJWT verify req) as [[req'|e]|e].
    + destruct H as (H1 & H2 & H3 & _). auto.
    + now destruct H.
    + destruct H as (-> & Hh). auto.
  - destruct (authenticateAPIKey_settles cfg req) as (o & -> & Ho).
    split; [|split; [discriminate | eauto]].
    destruct o as [req'|e]; [|exact Ho]. destruct Ho as (H1 & H2 & H3). auto.
  - split; [|split; [reflexivity | discriminate]]. auto.
Qed.

(** X14: what [optionalAuth] lets through.  With neither credential header
    the request is handed on unchanged.  With an [x-api-key] header it does
    what [authenticateAPIKey] does, so a key that is not configured is not
    let through.  With only an [Authorization] header whose token
    [jwt.verify] rejects (expired or invalid), the promise of
    [authenticateJWT] is rejected, the [catch] of [optionalAuth] calls
    [next()], and the request is handed on unchanged, without [req.user];
    a token [jwt.verify] accepts is handed on with [req.user] set. *)
Theorem optionalAuth_lets_bad_tokens_through
    (cfg : ApiKeysConfig) (verify : string -> JwtResult) (req : AuthRequest) :
  (present (authorization req) = false -> present (x_api_key req) = false ->
   optionalAuth cfg verify req = Fulfilled (Next req))
  /\ (present (x_api_key req) = true ->
      optionalAuth cfg verify req = authenticateAPIKey cfg req)
  /\ (forall h, present (x_api_key req) = false ->
        authorization req = Some h -> bearer_token h <> "" ->
        h <> "" ->
        match verify (bearer_token h) with
        | Verified decoded =>
            exists u, optionalAuth cfg verify req = Fulfilled (Next (with_user req u))
                      /\ ReqUser.id u = Payload.id decoded
        | TokenExpiredError | JsonWebTokenError =>
            optionalAuth cfg verify req = Fulfilled (Next req)
        end).
Proof.
  unfold optionalAuth. split; [|split].
  - intros -> ->. reflexivity.
  - intros Hk. rewrite Hk. rewrite andb_false_r.
    destruct (authenticateAPIKey_settles cfg req) as (o & -> & _). reflexivity.
  - intros h Hk Hh Ht Hne. rewrite Hk.
    unfold present. rewrite Hh.
    replace (truthy h) with true by (symmetry; now apply truthy_nonempty).
    cbn [negb andb]. unfold authenticateJWT, authenticateJWT_try. rewrite Hh.
    replace (truthy h) with true by (symmetry; now apply truthy_nonempty).
    cbn [negb]. cbv zeta.
    replace (truthy (bearer_token h)) with true
      by (symmetry; now apply truthy_nonempty).
    cbn [negb]. destruct (verify (bearer_token h)); cbn [await_or_next].
    + eexists. split; reflexivity.
    + reflexivity.
    + reflexivity.
Qed.

Example optionalAuth_passes_expired_token :
  optionalAuth sample_keys sample_verify (bearer_request "Bearer tok-old")
  = Fulfilled (Next (bearer_request "Bearer tok-old")).
Proof. reflexivity. Qed.

Example optionalAuth_hands_on_error_for_wrong_key :
  optionalAuth sample_keys sample_verify (api_key_request "jug_0123")
  = Fulfilled (NextError (NotConstructor "UnauthorizedError")).
Proof. reflexivity. Qed.

(** X15: who passes the guards of the compute routes with an API key.  For
    a request that carries only an [x-api-key] header, and required
    permissions that name none of 'read', 'write', 'verify' (as
    ['compute'], ['compute', 'cancel'] and ['compute', 'schedule'] of the
    recompute, cancel and schedule routes), [authenticate] followed by
    [requirePermission] lets the request reach the handler for the master
    key only.  For the system key [requirePermission] throws the TypeError
    of [new ForbiddenError(...)]; for every other key [authenticate] hands
    the TypeError of [new UnauthorizedError(...)] to [next]. *)
Theorem compute_routes_need_master_key
    (cfg : ApiKeysConfig) (verify : string -> JwtResult)
    (permissions : list string) (k : string) :
  k <> "" ->
  ~ In "read" permissions -> ~ In "write" permissions ->
  ~ In "verify" permissions ->
  ((exists req', guard cfg verify permissions (api_key_request k) = Passed req')
   <-> k = masterKey cfg)
  /\ (k <> masterKey cfg -> k = systemKey cfg ->
      guard cfg verify permissions (api_key_request k)
      = Crashed (NotConstructor "ForbiddenError"))
  /\ (k <> masterKey cfg -> k <> systemKey cfg ->
      guard cfg verify permissions (api_key_request k)
      = Refused (NotConstructor "UnauthorizedError")).
Proof.
  intros Hne Hr Hw Hv. apply truthy_nonempty in Hne.
  unfold guard, authenticate, present, api_key_request.
  cbn [authorization x_api_key]. rewrite Hne. cbn [negb andb].
  unfold authenticateAPIKey, authenticateAPIKey_try. cbn [x_api_key].
  rewrite Hne. cbn [negb].
  destruct (String.eqb_spec k (masterKey cfg)) as [Hm|Hm].
  - split; [|split; intros; contradiction].
    split; auto. intros _. eexists. reflexivity.
  - destruct (String.eqb_spec k (systemKey cfg)) as [Hs|Hs].
    + assert (Hnone :
        existsb (fun p => includes ["read"; "write"; "verify"] p) permissions
        = false).
      { destruct (existsb _ permissions) eqn:E; [|reflexivity].
        apply existsb_exists in E as (p & Hp & Hin).
        apply includes_In in Hin. simpl in Hin.
        destruct Hin as [<-|[<-|[<-|[]]]]; contradiction. }
      assert (Hout :
        requirePermission permissions
          (with_apiKey
             {| authorization := None; x_api_key := Some k;
                user := None; apiKey := None |}
             {| ReqApiKey.key := k; ReqApiKey.tier := "premium";
                ReqApiKey.permissions := ["read"; "write"; "verify"] |})
        = Threw (NotConstructor "ForbiddenError")).
      { unfold requirePermission. cbn [with_apiKey user apiKey app
          ReqApiKey.permissions].
        change (includes ["read"; "write"; "verify"] "*") with false.
        cbv iota. rewrite Hnone. reflexivity. }
      rewrite Hout. split; [|split; [reflexivity | intros; contradiction]].
      split; [intros (req' & H); discriminate | contradiction].
    + split; [|split; [intros; contradiction | reflexivity]].
      split; [intros (req' & H); discriminate | contradiction].
Qed.

Lemma compute_routes_need_master_key_witness :
  ((exists req',
      guard sample_keys sample_verify ["compute"; "cancel"]
            (api_key_request "jug_system_key") = Passed req')
   <-> "jug_system_key" = masterKey sample_keys)
  /\ ("jug_system_key" <> masterKey sample_keys ->
      "jug_system_key" = systemKey sample_keys ->
      guard sample_keys sample_verify ["compute"; "cancel"]
            (api_key_request "jug_system_key")
      = Crashed (NotConstructor "ForbiddenError"))
  /\ ("jug_system_key" <> masterKey sample_keys ->
      "jug_system_key" <> systemKey sample_keys ->
      guard sample_keys sample_verify ["compute"; "cancel"]
            (api_key_request "jug_system_key")
      = Refused (NotConstructor "UnauthorizedError")).
Proof.
  apply (compute_routes_need_master_key sample_keys sample_verify
           ["compute"; "cancel"] "jug_system_key").
  - discriminate.
  - simpl. intros [H|[H|[]]]; discriminate.
  - simpl. intros [H|[H|[]]]; discriminate.
  - simpl. intros [H|[H|[]]]; discriminate.
Defined.

(** X16: the 'Bearer ' prefix.  For a request whose [Authorization] header
    is 'Bearer ' followed by [t], [authenticateJWT] verifies exactly [t].
    A verified token puts the decoded id, email, role and permissions (none
    when the payload has none) into [req.user] and the request is handed
    on.  For an empty [t], [next] receives the TypeError of
    [new UnauthorizedError(...)].  For a token [jwt.verify] rejects, expired
    or otherwise invalid, the [catch] block throws that TypeError itself:
    the promise is rejected and [next] is never called. *)
Theorem bearer_header_is_verified
    (verify : string -> JwtResult) (req : AuthRequest) (t : string) :
  authorization req = Some ("Bearer " ++ t)%string ->
  authenticateJWT verify req
  = if String.eqb t "" then
      Fulfilled (NextError (NotConstructor "UnauthorizedError"))
    else
      match verify t with
      | Verified decoded =>
          Fulfilled
            (Next (with_user req
                     {| ReqUser.id := Payload.id decoded;
                        ReqUser.email := Payload.email decoded;
                        ReqUser.role := Payload.role decoded;
                        ReqUser.permissions :=
                          match Payload.permissions decoded with
                          | Some ps => ps
                          | None => []
                          end |}))
      | TokenExpiredError => Rejected (NotConstructor "UnauthorizedError")
      | JsonWebTokenError => Rejected (NotConstructor "UnauthorizedError")
      end.
Proof.
  intros Hh. unfold authenticateJWT, authenticateJWT_try. rewrite Hh.
  change (truthy ("Bearer " ++ t)%string) with true. cbn [negb]. cbv zeta.
  rewrite bearer_token_strips. unfold truthy. rewrite negb_involutive.
  destruct (String.eqb t ""); [reflexivity|].
  destruct (verify t); reflexivity.
Qed.

Lemma bearer_header_is_verified_witness :
  authenticateJWT sample_verify (bearer_request "Bearer tok-old")
  = if String.eqb "tok-old" "" then
      Fulfilled (NextError (NotConstructor "UnauthorizedError"))
    else
      match sample_verify "tok-old" with
      | Verified decoded =>
          Fulfilled
            (Next (with_user (bearer_request "Bearer tok-old")
                     {| ReqUser.id := Payload.id decoded;
                        ReqUser.email := Payload.email decoded;
                        ReqUser.role := Payload.role decoded;
                        ReqUser.permissions :=
                          match Payload.permissions decoded with
                          | Some ps => ps
                          | None => []
                          end |}))
      | TokenExpiredError => Rejected (NotConstructor "UnauthorizedError")
      | JsonWebTokenError => Rejected (NotConstructor "UnauthorizedError")
      end.
Proof.
  apply (bearer_header_is_verified sample_verify
           (bearer_request "Bearer tok-old") "tok-old").
  reflexivity.
Defined.

(** ** The auth controller *)

Lemma set_has_In (l : list string) (x : string) : set_has l x = true <-> In x l.
Proof.
  unfold set_has. rewrite existsb_exists. split.
  - intros (y & Hin & Heq). apply String.eqb_eq in Heq. now subst.
  - intros Hin. exists x. split; [exact Hin | apply String.eqb_refl].
Qed.

Lemma set_add_keeps (l : list string) (x y : string) :
  set_has l y = true -> set_has (set_add l x) y = true.
Proof.
  intros H. unfold set_add. destruct (set_has l x); [exact H|].
  apply set_has_In. apply in_or_app. left. now apply set_has_In.
Qed.

Lemma set_add_has (l : list string) (x : string) : set_has (set_add l x) x = true.
Proof.
  unfold set_add. destruct (set_has l x) eqn:E; [exact E|].
  apply set_has_In. apply in_or_app. right. now left.
Qed.

Lemma same_id_eq (a b : option string) : same_id a b = true <-> a = b.
Proof.
  destruct a as [x|], b as [y|]; simpl; split; try discriminate; auto.
  - intros H. apply String.eqb_eq in H. now subst.
  - intros [= ->]. apply String.eqb_refl.
Qed.

Lemma delete_absent {V : Type} (m : JsMap.t V) (k : string) :
  JsMap.get m k = None -> map_delete m k = m.
Proof.
  unfold map_delete. induction m as [|[k' v] m IH]; simpl; intros H; auto.
  destruct (String.eqb k' k); [discriminate|]. simpl. now rewrite IH.
Qed.

Lemma delete_set_fresh {V : Type} (m : JsMap.t V) (k : string) (v : V) :
  JsMap.get m k = None -> map_delete (JsMap.set m k v) k = m.
Proof.
  intros H. rewrite set_fresh by exact H. unfold map_delete.
  rewrite filter_app. simpl. rewrite String.eqb_refl. simpl.
  rewrite app_nil_r. now apply delete_absent.
Qed.

Lemma find_none_app {A : Type} (f : A -> bool) (l : list A) (a : A) :
  (forall x, In x l -> f x = false) ->
  find f (l ++ [a]) = if f a then Some a else None.
Proof.
  induction l as [|x l IH]; simpl; intros H; [reflexivity|].
  rewrite (H x) by now left. apply IH. intros y Hy. apply H. now right.
Qed.

Lemma nth_error_after {A : Type} (h t : list A) (b : A) :
  nth_error (h ++ b :: t) (List.length h) = Some b
  /\ firstn (List.length h) (h ++ b :: t) ++ skipn (S (List.length h)) (h ++ b :: t)
     = h ++ t.
Proof.
  induction h as [|x h [IH1 IH2]]; [split; reflexivity|].
  split; [exact IH1|].
  change (x :: (firstn (List.length h) (h ++ b :: t)
                ++ skipn (S (List.length h)) (h ++ b :: t)) = x :: (h ++ t)).
  now rewrite IH2.
Qed.

(** X17: a registration that starts after an account exists is refused.
    From any state without a user for the email and with [n] registrations
    waiting for their hash: when a registration arrives, its hash resolves,
    and then a second registration for the same email arrives, the first is
    answered 201 and the second 409 'User already exists'; the stored
    account is the first one's. *)
Theorem later_registration_is_refused
    (compare : string -> string -> bool) (s : AuthState)
    (b1 b2 : RegisterBody) (o1 : Issued) :
  JsMap.get (users s) (reg_email b1) = None ->
  reg_email b2 = reg_email b1 ->
  exists s',
    auth_run compare s
      [RegisterArrives b1; HashResolves (List.length (hashing s)) o1;
       RegisterArrives b2]
    = Some (s',
            [ {| a_code := 201;
                 a_body := UserTokens
                             {| uv_id := is_uuid o1; uv_email := reg_email b1;
                                uv_name := reg_name b1; uv_role := "user" |}
                             {| accessToken := is_accessToken o1;
                                refreshToken := is_refreshToken o1 |} |};
              {| a_code := 409; a_body := AuthFailure "User already exists" |} ])
    /\ (exists u, JsMap.get (users s') (reg_email b1) = Some u
                  /\ User.id u = is_uuid o1
                  /\ User.password u = is_hashedPassword o1
                  /\ User.name u = reg_name b1)
    /\ hashing s' = hashing s.
Proof.
  intros Hnew He.
  destruct (nth_error_after (hashing s) [] b1) as [Hn Hd].
  rewrite app_nil_r in Hd.
  cbn [auth_run auth_step]. unfold registerCheck at 1. rewrite Hnew.
  cbn [hashing]. rewrite Hn. unfold registerCommit. rewrite Hd.
  cbn [users apiKeys refreshTokens hashing].
  unfold registerCheck. cbn [users]. rewrite He, get_set_same.
  eexists. split; [reflexivity|]. cbn [users hashing].
  rewrite get_set_same. split; [|reflexivity].
  eexists. split; [reflexivity|]. repeat split.
Qed.

Lemma later_registration_is_refused_witness :
  exists s',
    auth_run sample_compare auth_init
      [RegisterArrives alice_registers;
       HashResolves (List.length (hashing auth_init)) alice_issued;
       RegisterArrives mallory_registers]
    = Some (s',
            [ {| a_code := 201;
                 a_body := UserTokens
                             {| uv_id := is_uuid alice_issued;
                                uv_email := reg_email alice_registers;
                                uv_name := reg_name alice_registers;
                                uv_role := "user" |}
                             {| accessToken := is_accessToken alice_issued;
                                refreshToken := is_refreshToken alice_issued |} |};
              {| a_code := 409; a_body := AuthFailure "User already exists" |} ])
    /\ (exists u, JsMap.get (users s') (reg_email alice_registers) = Some u
                  /\ User.id u = is_uuid alice_issued
                  /\ User.password u = is_hashedPassword alice_issued
                  /\ User.name u = reg_name alice_registers)
    /\ hashing s' = hashing auth_init.
Proof.
  apply (later_registration_is_refused sample_compare auth_init
           alice_registers mallory_registers alice_issued).
  - reflexivity.
  - reflexivity.
Defined.

Lemma nth_error_last {A : Type} (h : list A) (b1 b2 : A) :
  nth_error ((h ++ [b1]) ++ [b2]) (S (List.length h)) = Some b2
  /\ firstn (S (List.length h)) ((h ++ [b1]) ++ [b2])
     ++ skipn (S (S (List.length h))) ((h ++ [b1]) ++ [b2])
     = h ++ [b1].
Proof.
  destruct (nth_error_after (h ++ [b1]) [] b2) as [Hn Hd].
  rewrite length_app in Hn, Hd. cbn [List.length] in Hn, Hd.
  rewrite Nat.add_1_r in Hn, Hd. rewrite app_nil_r in Hd. split; assumption.
Qed.

(** The user [register] stores, and its answer, for a body and what it was
    issued. *)
Lemma registerCommit_result (s : AuthState) (b : RegisterBody) (o : Issued) :
  registerCommit s b o
  = ({| users := JsMap.set (users s) (reg_email b) (registered_user b o);
        apiKeys := apiKeys s;
        refreshTokens := set_add (refreshTokens s) (is_refreshToken o);
        hashing := hashing s |},
     created b o).
Proof. reflexivity. Qed.

(** The first registration's hash resolves first. *)
Lemma overlap_run
    (compare : string -> string -> bool) (s : AuthState)
    (b1 b2 : RegisterBody) (o1 o2 : Issued) :
  JsMap.get (users s) (reg_email b1) = None ->
  reg_email b2 = reg_email b1 ->
  auth_run compare s
    [RegisterArrives b1; RegisterArrives b2;
     HashResolves (List.length (hashing s)) o1;
     HashResolves (List.length (hashing s)) o2]
  = Some ({| users := JsMap.set (users s) (reg_email b1) (registered_user b2 o2);
             apiKeys := apiKeys s;
             refreshTokens :=
               set_add (set_add (refreshTokens s) (is_refreshToken o1))
                       (is_refreshToken o2);
             hashing := hashing s |},
          [created b1 o1; created b2 o2]).
Proof.
  intros Hnew He.
  destruct (nth_error_after (hashing s) [b2] b1) as [Hn1 Hd1].
  destruct (nth_error_after (hashing s) [] b2) as [Hn2 Hd2].
  rewrite app_nil_r in Hd2.
  cbn [auth_run auth_step]. unfold registerCheck at 1. rewrite Hnew.
  unfold registerCheck at 1. cbn [users hashing]. rewrite He, Hnew.
  cbn [hashing]. rewrite <- app_assoc. cbn [app]. rewrite Hn1.
  rewrite registerCommit_result. cbn [hashing]. rewrite Hd1, Hn2.
  rewrite registerCommit_result. cbn [users apiKeys refreshTokens hashing].
  rewrite Hd2, He, set_set. reflexivity.
Qed.

(** The second registration's hash resolves first. *)
Lemma overlap_run_rev
    (compare : string -> string -> bool) (s : AuthState)
    (b1 b2 : RegisterBody) (o1 o2 : Issued) :
  JsMap.get (users s) (reg_email b1) = None ->
  reg_email b2 = reg_email b1 ->
  auth_run compare s
    [RegisterArrives b1; RegisterArrives b2;
     HashResolves (S (List.length (hashing s))) o2;
     HashResolves (List.length (hashing s)) o1]
  = Some ({| users := JsMap.set (users s) (reg_email b1) (registered_user b1 o1);
             apiKeys := apiKeys s;
             refreshTokens :=
               set_add (set_add (refreshTokens s) (is_refreshToken o2))
                       (is_refreshToken o1);
             hashing := hashing s |},
          [created b2 o2; created b1 o1]).
Proof.
  intros Hnew He.
  destruct (nth_error_last (hashing s) b1 b2) as [Hn2 Hd2].
  destruct (nth_error_after (hashing s) [] b1) as [Hn1 Hd1].
  rewrite app_nil_r in Hd1.
  cbn [auth_run auth_step]. unfold registerCheck at 1. rewrite Hnew.
  unfold registerCheck at 1. cbn [users hashing]. rewrite He, Hnew.
  cbn [hashing]. rewrite Hn2.
  rewrite registerCommit_result. cbn [hashing]. rewrite Hd2, Hn1.
  rewrite registerCommit_result. cbn [users apiKeys refreshTokens hashing].
  rewrite Hd1, He, set_set. reflexivity.
Qed.

(** X18: two registrations that overlap both succeed, and the later hash
    wins.  From any state without a user for the email: when a second
    registration for the same email arrives while the first still waits for
    its hash, then in whichever order the two hashes resolve both
    registrations are answered 201, only one user is added, and the account
    that remains has the id, password hash and name of the registration
    whose hash resolved last. *)
Theorem overlapping_registrations_both_succeed
    (compare : string -> string -> bool) (s : AuthState)
    (b1 b2 : RegisterBody) (o1 o2 : Issued) :
  JsMap.get (users s) (reg_email b1) = None ->
  reg_email b2 = reg_email b1 ->
  (exists s',
     auth_run compare s
       [RegisterArrives b1; RegisterArrives b2;
        HashResolves (List.length (hashing s)) o1;
        HashResolves (List.length (hashing s)) o2]
     = Some (s',
             [ {| a_code := 201;
                  a_body := UserTokens
                              {| uv_id := is_uuid o1; uv_email := reg_email b1;
                                 uv_name := reg_name b1; uv_role := "user" |}
                              {| accessToken := is_accessToken o1;
                                 refreshToken := is_refreshToken o1 |} |};
               {| a_code := 201;
                  a_body := UserTokens
                              {| uv_id := is_uuid o2; uv_email := reg_email b2;
                                 uv_name := reg_name b2; uv_role := "user" |}
                              {| accessToken := is_accessToken o2;
                                 refreshToken := is_refreshToken o2 |} |} ])
     /\ (exists u, JsMap.get (users s') (reg_email b1) = Some u
                   /\ User.id u = is_uuid o2
                   /\ User.password u = is_hashedPassword o2
                   /\ User.name u = reg_name b2)
     /\ List.length (users s') = S (List.length (users s)))
  /\ (exists s',
        auth_run compare s
          [RegisterArrives b1; RegisterArrives b2;
           HashResolves (S (List.length (hashing s))) o2;
           HashResolves (List.length (hashing s)) o1]
        = Some (s',
                [ {| a_code := 201;
                     a_body := UserTokens
                                 {| uv_id := is_uuid o2; uv_email := reg_email b2;
                                    uv_name := reg_name b2; uv_role := "user" |}
                                 {| accessToken := is_accessToken o2;
                                    refreshToken := is_refreshToken o2 |} |};
                  {| a_code := 201;
                     a_body := UserTokens
                                 {| uv_id := is_uuid o1; uv_email := reg_email b1;
                                    uv_name := reg_name b1; uv_role := "user" |}
                                 {| accessToken := is_accessToken o1;
                                    refreshToken := is_refreshToken o1 |} |} ])
        /\ (exists u, JsMap.get (users s') (reg_email b1) = Some u
                      /\ User.id u = is_uuid o1
                      /\ User.password u = is_hashedPassword o1
                      /\ User.name u = reg_name b1)
        /\ List.length (users s') = S (List.length (users s))).
Proof.
  intros Hnew He. split.
  - eexists. split; [apply (overlap_run compare s b1 b2 o1 o2 Hnew He)|].
    cbn [users]. rewrite get_set_same. split.
    + eexists. split; [reflexivity|]. repeat split.
    + rewrite set_fresh by exact Hnew. rewrite length_app. simpl. lia.
  - eexists. split; [apply (overlap_run_rev compare s b1 b2 o1 o2 Hnew He)|].
    cbn [users]. rewrite get_set_same. split.
    + eexists. split; [reflexivity|]. repeat split.
    + rewrite set_fresh by exact Hnew. rewrite length_app. simpl. lia.
Qed.

Lemma overlapping_registrations_both_succeed_witness :
  (exists s',
     auth_run sample_compare auth_init
       [RegisterArrives alice_registers; RegisterArrives mallory_registers;
        HashResolves (List.length (hashing auth_init)) alice_issued;
        HashResolves (List.length (hashing auth_init)) mallory_issued]
     = Some (s',
             [ {| a_code := 201;
                  a_body := UserTokens
                              {| uv_id := is_uuid alice_issued;
                                 uv_email := reg_email alice_registers;
                                 uv_name := reg_name alice_registers;
                                 uv_role := "user" |}
                              {| accessToken := is_accessToken alice_issued;
                                 refreshToken := is_refreshToken alice_issued |} |};
               {| a_code := 201;
                  a_body := UserTokens
                              {| uv_id := is_uuid mallory_issued;
                                 uv_email := reg_email mallory_registers;
                                 uv_name := reg_name mallory_registers;
                                 uv_role := "user" |}
                              {| accessToken := is_accessToken mallory_issued;
                                 refreshToken := is_refreshToken mallory_issued |} |} ])
     /\ (exists u, JsMap.get (users s') (reg_email alice_registers) = Some u
                   /\ User.id u = is_uuid mallory_issued
                   /\ User.password u = is_hashedPassword mallory_issued
                   /\ User.name u = reg_name mallory_registers)
     /\ List.length (users s') = S (List.length (users auth_init)))
  /\ (exists s',
        auth_run sample_compare auth_init
          [RegisterArrives alice_registers; RegisterArrives mallory_registers;
           HashResolves (S (List.length (hashing auth_init))) mallory_issued;
           HashResolves (List.length (hashing auth_init)) alice_issued]
        = Some (s',
                [ {| a_code := 201;
                     a_body := UserTokens
                                 {| uv_id := is_uuid mallory_issued;
                                    uv_email := reg_email mallory_registers;
                                    uv_name := reg_name mallory_registers;
                                    uv_role := "user" |}
                                 {| accessToken := is_accessToken mallory_issued;
                                    refreshToken := is_refreshToken mallory_issued |} |};
                  {| a_code := 201;
                     a_body := UserTokens
                                 {| uv_id := is_uuid alice_issued;
                                    uv_email := reg_email alice_registers;
                                    uv_name := reg_name alice_registers;
                                    uv_role := "user" |}
                                 {| accessToken := is_accessToken alice_issued;
                                    refreshToken := is_refreshToken alice_issued |} |} ])
        /\ (exists u, JsMap.get (users s') (reg_email alice_registers) = Some u
                      /\ User.id u = is_uuid alice_issued
                      /\ User.password u = is_hashedPassword alice_issued
                      /\ User.name u = reg_name alice_registers)
        /\ List.length (users s') = S (List.length (users auth_init))).
Proof.
  apply (overlapping_registrations_both_succeed sample_compare auth_init
           alice_registers mallory_registers alice_issued mallory_issued).
  - reflexivity.
  - reflexivity.
Defined.

(** X19: a failed login does not tell why it failed.  A login for an email
    that is not registered and a login with a password that
    [bcrypt.compare] rejects get the same answer, 401 'Invalid credentials',
    and neither changes the state. *)
Theorem login_failures_look_alike
    (compare : string -> string -> bool) (s : AuthState)
    (unknown wrong : LoginBody) (u : User.t) (a1 r1 a2 r2 : string) :
  JsMap.get (users s) (login_email unknown) = None ->
  JsMap.get (users s) (login_email wrong) = Some u ->
  compare (login_password wrong) (User.password u) = false ->
  login compare s unknown a1 r1
  = (s, {| a_code := 401; a_body := AuthFailure "Invalid credentials" |})
  /\ login compare s wrong a2 r2
     = (s, {| a_code := 401; a_body := AuthFailure "Invalid credentials" |}).
Proof.
  intros H1 H2 H3. unfold login. rewrite H1, H2, H3. split; reflexivity.
Qed.

Lemma login_failures_look_alike_witness :
  login sample_compare alice_registered
    {| login_email := "bob@example.org"; login_password := "x" |} "a" "r"
  = (alice_registered,
     {| a_code := 401; a_body := AuthFailure "Invalid credentials" |})
  /\ login sample_compare alice_registered
       {| login_email := "alice@example.org"; login_password := "guess" |} "a" "r"
     = (alice_registered,
        {| a_code := 401; a_body := AuthFailure "Invalid credentials" |}).
Proof.
  apply (login_failures_look_alike sample_compare alice_registered
           {| login_email := "bob@example.org"; login_password := "x" |}
           {| login_email := "alice@example.org"; login_password := "guess" |}
           alice_user "a" "r" "a" "r").
  - reflexivity.
  - reflexivity.
  - reflexivity.
Defined.

(** X20: register, then log in.  After a registration has been stored with
    a hash that [bcrypt.compare] accepts for the registered password, a
    login with that email and password is answered 200 with the registered
    id, email, name and role 'user' and the new tokens, and its refresh
    token is in [refreshTokens] afterwards; a login with a password that
    [bcrypt.compare] rejects for that hash is answered 401. *)
Theorem login_after_register
    (compare : string -> string -> bool) (s : AuthState)
    (b : RegisterBody) (o : Issued) (access refresh other : string) :
  compare (reg_password b) (is_hashedPassword o) = true ->
  compare other (is_hashedPassword o) = false ->
  let s1 := fst (registerCommit s b o) in
  snd (login compare s1
         {| login_email := reg_email b; login_password := reg_password b |}
         access refresh)
  = {| a_code := 200;
       a_body := UserTokens
                   {| uv_id := is_uuid o; uv_email := reg_email b;
                      uv_name := reg_name b; uv_role := "user" |}
                   {| accessToken := access; refreshToken := refresh |} |}
  /\ set_has
       (refreshTokens
          (fst (login compare s1
                  {| login_email := reg_email b; login_password := reg_password b |}
                  access refresh)))
       refresh = true
  /\ snd (login compare s1
            {| login_email := reg_email b; login_password := other |}
            access refresh)
     = {| a_code := 401; a_body := AuthFailure "Invalid credentials" |}.
Proof.
  intros Hok Hbad s1. unfold s1, login, registerCommit.
  cbn [fst snd users login_email login_password].
  rewrite get_set_same. cbn [User.password]. rewrite Hok, Hbad.
  cbn [negb fst snd refreshTokens].
  split; [reflexivity|]. split; [apply set_add_has | reflexivity].
Qed.

Lemma login_after_register_witness :
  let s1 := fst (registerCommit auth_init alice_registers alice_issued) in
  snd (login sample_compare s1
         {| login_email := reg_email alice_registers;
            login_password := reg_password alice_registers |}
         "tok-2" "ref-2")
  = {| a_code := 200;
       a_body := UserTokens
                   {| uv_id := is_uuid alice_issued;
                      uv_email := reg_email alice_registers;
                      uv_name := reg_name alice_registers; uv_role := "user" |}
                   {| accessToken := "tok-2"; refreshToken := "ref-2" |} |}
  /\ set_has
       (refreshTokens
          (fst (login sample_compare s1
                  {| login_email := reg_email alice_registers;
                     login_password := reg_password alice_registers |}
                  "tok-2" "ref-2")))
       "ref-2" = true
  /\ snd (login sample_compare s1
            {| login_email := reg_email alice_registers;
               login_password := "guess" |}
            "tok-2" "ref-2")
     = {| a_code := 401; a_body := AuthFailure "Invalid credentials" |}.
Proof.
  apply (login_after_register sample_compare auth_init alice_registers
           alice_issued "tok-2" "ref-2" "guess").
  - reflexivity.
  - reflexivity.
Defined.

Lemma auth_step_users_ok compare s e s' r :
  Forall user_ok (users s) -> auth_step compare s e = Some (s', r) ->
  Forall user_ok (users s').
Proof.
  intros H. destruct e; cbn [auth_step].
  - destruct (registerCheck s b); intros [= <- _]; exact H.
  - destruct (nth_error (hashing s) k) as [b|]; [|discriminate].
    unfold registerCommit. intros [= <- _]. cbn [users].
    apply Forall_set; [exact H|]. intros k' ->. repeat split.
  - unfold login. destruct (JsMap.get (users s) (login_email b)) as [u|].
    + destruct (negb _); intros [= <- _]; exact H.
    + intros [= <- _]; exact H.
  - intros [= <- _]; exact H.
  - intros [= <- _]; exact H.
  - intros [= <- _]; exact H.
  - unfold generateApiKey. intros [= <- _]; exact H.
  - intros [= <- _]; exact H.
  - unfold revokeApiKey. destruct (find _ _); intros [= <- _]; exact H.
Qed.

Lemma auth_run_users_ok compare evs : forall s s' rs,
  Forall user_ok (users s) -> auth_run compare s evs = Some (s', rs) ->
  Forall user_ok (users s').
Proof.
  induction evs as [|e evs IH]; cbn [auth_run]; intros s s' rs H Hrun.
  - now injection Hrun as <- _.
  - destruct (auth_step compare s e) as [[s1 r]|] eqn:Hs; [|discriminate].
    destruct (auth_run compare s1 evs) as [[s2 rs2]|] eqn:Hr; [|discriminate].
    injection Hrun as <- _. eapply IH; [|exact Hr].
    eapply auth_step_users_ok; eauto.
Qed.

(** X21: what a registered user may do.  In every reachable state of the
    auth controller each user is stored under its own email with role
    'user' and the permissions 'read' and 'verify'.  So, when [jwt.verify]
    decodes a bearer token to the payload [generateAccessToken] signs for
    such a user, then on a route that requires neither 'read' nor 'verify'
    (the recompute, cancel and schedule routes) the request does not reach
    the handler: [requirePermission] throws the TypeError of
    [new ForbiddenError(...)] and calls [next] with nothing; on a route
    that requires 'read' the guards hand the request on. *)
Theorem registered_users_cannot_compute
    (compare : string -> string -> bool) (cfg : ApiKeysConfig)
    (verify : string -> JwtResult) (s : AuthState) (e : string) (u : User.t)
    (t : string) (permissions : list string) :
  auth_reachable compare s ->
  JsMap.get (users s) e = Some u ->
  t <> "" ->
  verify t = Verified (accessPayload u) ->
  ~ In "read" permissions -> ~ In "verify" permissions ->
  User.email u = e
  /\ User.role u = "user"
  /\ User.permissions u = ["read"; "verify"]
  /\ guard cfg verify permissions (bearer_request ("Bearer " ++ t)%string)
     = Crashed (NotConstructor "ForbiddenError")
  /\ exists req',
       guard cfg verify ["read"] (bearer_request ("Bearer " ++ t)%string)
       = Passed req'.
Proof.
  intros (evs & rs & Hrun) Hg Ht Hv Hr Hvf.
  assert (Hok : Forall user_ok (users s)).
  { eapply auth_run_users_ok; [|exact Hrun]. constructor. }
  destruct (Forall_get _ _ _ _ Hok Hg) as (He & Hrole & Hperm).
  simpl in He, Hrole, Hperm.
  repeat (split; [assumption|]).
  assert (Hauth :
    authenticate cfg verify (bearer_request ("Bearer " ++ t)%string)
    = Fulfilled
        (Next (with_user (bearer_request ("Bearer " ++ t)%string)
                 {| ReqUser.id := User.id u; ReqUser.email := User.email u;
                    ReqUser.role := User.role u;
                    ReqUser.permissions := ["read"; "verify"] |}))).
  { unfold authenticate, bearer_request, present.
    cbn [authorization x_api_key].
    change (truthy ("Bearer " ++ t)%string) with true. cbn [negb andb].
    unfold authenticateJWT, authenticateJWT_try. cbn [authorization].
    change (truthy ("Bearer " ++ t)%string) with true. cbn [negb]. cbv zeta.
    rewrite bearer_token_strips.
    replace (truthy t) with true by (symmetry; now apply truthy_nonempty).
    cbn [negb]. rewrite Hv. cbn [accessPayload Payload.id Payload.email
      Payload.role Payload.permissions]. rewrite Hperm. reflexivity. }
  unfold guard. rewrite !Hauth. split; [|eexists; reflexivity].
  unfold requirePermission.
  cbn [with_user bearer_request user apiKey ReqUser.permissions app].
  change (includes ["read"; "verify"] "*") with false. cbv iota.
  assert (Hnone :
    existsb (fun p => includes ["read"; "verify"] p) permissions = false).
  { destruct (existsb _ permissions) eqn:E; [|reflexivity].
    apply existsb_exists in E as (p & Hp & Hin).
    apply includes_In in Hin. simpl in Hin.
    destruct Hin as [<-|[<-|[]]]; contradiction. }
  rewrite Hnone. reflexivity.
Qed.

Lemma registered_users_cannot_compute_witness :
  User.email alice_user = "alice@example.org"
  /\ User.role alice_user = "user"
  /\ User.permissions alice_user = ["read"; "verify"]
  /\ guard sample_keys sample_verify ["compute"]
       (bearer_request ("Bearer " ++ "tok-alice")%string)
     = Crashed (NotConstructor "ForbiddenError")
  /\ exists req',
       guard sample_keys sample_verify ["read"]
         (bearer_request ("Bearer " ++ "tok-alice")%string)
       = Passed req'.
Proof.
  apply (registered_users_cannot_compute sample_compare sample_keys
           sample_verify alice_registered "alice@example.org" alice_user
           "tok-alice" ["compute"]).
  - exists [RegisterArrives alice_registers; HashResolves 0 alice_issued].
    eexists. reflexivity.
  - reflexivity.
  - discriminate.
  - reflexivity.
  - simpl. intros [H|[]]; discriminate.
  - simpl. intros [H|[]]; discriminate.
Defined.

(** X22: issuing and revoking an API key.  When the key string and the key
    id are new, [generateApiKey] for user [U] adds the key at the end of
    what [listApiKeys] shows [U]; a revoke of that id by any other caller is
    answered 404 and changes nothing; a revoke by [U] is answered 200 and
    leaves the key map as it was before the key was issued. *)
Theorem api_key_round_trip
    (s : AuthState) (U V : option string) (b : ApiKeyRequest)
    (uuid1 uuid2 : string) (now : Date) :
  JsMap.get (apiKeys s) ("jug_" ++ strip_dashes uuid2)%string = None ->
  (forall k, In k (JsMap.values (apiKeys s)) -> ApiKey.id k <> uuid1) ->
  let s1 := fst (generateApiKey s U b uuid1 uuid2 now) in
  (exists before new,
     a_body (listApiKeys s U) = ListedKeysBody before
     /\ a_body (listApiKeys s1 U) = ListedKeysBody (before ++ [new])
     /\ lk_id new = uuid1 /\ lk_name new = akr_name b)
  /\ (V <> U ->
      revokeApiKey s1 V uuid1
      = (s1, {| a_code := 404; a_body := AuthFailure "API key not found" |}))
  /\ snd (revokeApiKey s1 U uuid1)
     = {| a_code := 200; a_body := Message "API key revoked successfully" |}
  /\ apiKeys (fst (revokeApiKey s1 U uuid1)) = apiKeys s.
Proof.
  intros Hkey Hid s1.
  set (k := {| ApiKey.id := uuid1;
               ApiKey.key := ("jug_" ++ strip_dashes uuid2)%string;
               ApiKey.name := akr_name b; ApiKey.userId := U;
               ApiKey.permissions :=
                 match akr_permissions b with
                 | Some ps => ps
                 | None => ["read"; "verify"]
                 end;
               ApiKey.tier := "basic"; ApiKey.createdAt := now;
               ApiKey.lastUsed := None |}).
  assert (Hvals : JsMap.values (apiKeys s1) = JsMap.values (apiKeys s) ++ [k]).
  { unfold s1, generateApiKey. cbn [fst apiKeys ApiKey.key].
    rewrite set_fresh by exact Hkey. unfold JsMap.values. now rewrite map_app. }
  assert (Hfind : forall W,
    find (fun k0 => String.eqb (ApiKey.id k0) uuid1 && same_id (ApiKey.userId k0) W)
         (JsMap.values (apiKeys s1))
    = if same_id U W then Some k else None).
  { intros W. rewrite Hvals, find_none_app.
    - cbn [k ApiKey.id ApiKey.userId]. now rewrite String.eqb_refl.
    - intros x Hx. specialize (Hid x Hx).
      destruct (String.eqb_spec (ApiKey.id x) uuid1); [contradiction|reflexivity]. }
  split; [|split; [|split]].
  - eexists. exists (listed k). unfold listApiKeys. cbn [a_body].
    split; [reflexivity|]. rewrite Hvals, filter_app, map_app.
    cbn [filter k ApiKey.userId].
    replace (same_id U U) with true by (symmetry; now apply same_id_eq).
    repeat split.
  - intros Hne. unfold revokeApiKey. rewrite Hfind.
    destruct (same_id U V) eqn:E; [|reflexivity].
    apply same_id_eq in E. congruence.
  - unfold revokeApiKey. rewrite Hfind.
    replace (same_id U U) with true by (symmetry; now apply same_id_eq).
    reflexivity.
  - unfold revokeApiKey. rewrite Hfind.
    replace (same_id U U) with true by (symmetry; now apply same_id_eq).
    cbn [fst apiKeys k ApiKey.key]. unfold s1, generateApiKey.
    cbn [fst apiKeys ApiKey.key]. now apply delete_set_fresh.
Qed.

Lemma api_key_round_trip_witness :
  let s1 :=
    fst (generateApiKey alice_registered (Some "u-1")
           {| akr_name := "ci"; akr_permissions := None |}
           "key-1" "0a-1b" 20) in
  (exists before new,
     a_body (listApiKeys alice_registered (Some "u-1")) = ListedKeysBody before
     /\ a_body (listApiKeys s1 (Some "u-1")) = ListedKeysBody (before ++ [new])
     /\ lk_id new = "key-1"
     /\ lk_name new = akr_name {| akr_name := "ci"; akr_permissions := None |})
  /\ (Some "u-2" <> Some "u-1" ->
      revokeApiKey s1 (Some "u-2") "key-1"
      = (s1, {| a_code := 404; a_body := AuthFailure "API key not found" |}))
  /\ snd (revokeApiKey s1 (Some "u-1") "key-1")
     = {| a_code := 200; a_body := Message "API key revoked successfully" |}
  /\ apiKeys (fst (revokeApiKey s1 (Some "u-1") "key-1"))
     = apiKeys alice_registered.
Proof.
  apply (api_key_round_trip alice_registered (Some "u-1") (Some "u-2")
           {| akr_name := "ci"; akr_permissions := None |} "key-1" "0a-1b" 20).
  - reflexivity.
  - simpl. intros k [].
Defined.

Lemma auth_step_keeps_tokens compare s e s' r tok :
  auth_step compare s e = Some (s', r) ->
  set_has (refreshTokens s) tok = true -> set_has (refreshTokens s') tok = true.
Proof.
  intros Hs H. destruct e; cbn [auth_step] in Hs.
  - destruct (registerCheck s b); injection Hs as <- _; exact H.
  - destruct (nth_error (hashing s) k) as [b|]; [|discriminate].
    unfold registerCommit in Hs. injection Hs as <- _. cbn [refreshTokens].
    now apply set_add_keeps.
  - unfold login in Hs. destruct (JsMap.get (users s) (login_email b)) as [u|].
    + destruct (negb _); injection Hs as <- _; [exact H|].
      cbn [refreshTokens]. now apply set_add_keeps.
    + injection Hs as <- _; exact H.
  - injection Hs as <- _; exact H.
  - injection Hs as <- _; exact H.
  - injection Hs as <- _; exact H.
  - unfold generateApiKey in Hs. injection Hs as <- _; exact H.
  - injection Hs as <- _; exact H.
  - unfold revokeApiKey in Hs. destruct (find _ _); injection Hs as <- _; exact H.
Qed.

(** X23: a refresh token is never revoked.  A token that is in
    [refreshTokens] is still there after any run of the auth controller
    (logouts included), so [refreshToken] never again answers it with the
    401 'Invalid refresh token'. *)
Theorem refresh_tokens_are_never_revoked
    (compare : string -> string -> bool) (s s' : AuthState)
    (evs : list AuthEvent) (rs : list AuthResponse) (tok : string) :
  auth_run compare s evs = Some (s', rs) ->
  set_has (refreshTokens s) tok = true ->
  set_has (refreshTokens s') tok = true
  /\ forall v access, a_code (refreshToken_handler s' tok v access) <> 401.
Proof.
  intros Hrun H.
  assert (H' : set_has (refreshTokens s') tok = true).
  { revert s s' rs Hrun H.
    induction evs as [|e evs IH]; cbn [auth_run]; intros s s' rs Hrun H.
    - now injection Hrun as <- _.
    - destruct (auth_step compare s e) as [[s1 r]|] eqn:Hs; [|discriminate].
      destruct (auth_run compare s1 evs) as [[s2 rs2]|] eqn:Hr; [|discriminate].
      injection Hrun as <- _. eapply IH; [exact Hr|].
      eapply auth_step_keeps_tokens; eauto. }
  split; [exact H'|]. intros v access. unfold refreshToken_handler.
  rewrite H'. cbn [negb].
  destruct v as [id|msg]; [destruct (find_user s' (Some id))|]; discriminate.
Qed.

Lemma refresh_tokens_are_never_revoked_witness :
  set_has (refreshTokens alice_registered) "ref-alice" = true
  /\ forall v access,
       a_code (refreshToken_handler alice_registered "ref-alice" v access) <> 401.
Proof.
  apply (refresh_tokens_are_never_revoked sample_compare alice_registered
           alice_registered [LogoutRequest; ProfileRequest (Some "u-1")]
           [logout; getProfile alice_registered (Some "u-1")] "ref-alice").
  - reflexivity.
  - reflexivity.
Defined.





Lemma get_In_values {V : Type} (m : JsMap.t V) (k : string) (v : V) :
  JsMap.get m k = Some v -> In v (JsMap.values m).
Proof.
  unfold JsMap.values. induction m as [|[k' v'] m IH]; simpl; [discriminate|].
  destruct (String.eqb k' k); [intros [= ->]; now left | auto].
Qed.

Lemma find_user_finds (s : AuthState) (e : string) (u : User.t) :
  JsMap.get (users s) e = Some u ->
  exists u', find_user s (Some (User.id u)) = Some u' /\ User.id u' = User.id u.
Proof.
  intros Hg. unfold find_user.
  destruct (find _ (JsMap.values (users s))) as [u'|] eqn:Hf.
  - exists u'. split; [reflexivity|]. apply find_some in Hf as [_ Hid].
    apply same_id_eq in Hid. now injection Hid.
  - exfalso. pose proof (find_none _ _ Hf u (get_In_values _ _ _ Hg)) as H.
    simpl in H. now rewrite String.eqb_refl in H.
Qed.

(** X25: the tokens of a login work.  After a login that [bcrypt.compare]
    accepts, the refresh token it returned is answered by [refreshToken]
    with 200 and the new access token whenever [jwt.verify] decodes it to
    the user's id, and [getProfile] for that id answers 200 with a profile
    of that id; a refresh token that was never issued is answered 401
    whatever [jwt.verify] says. *)
Theorem tokens_of_a_login_work
    (compare : string -> string -> bool) (s : AuthState) (b : LoginBody)
    (u : User.t) (access refresh access' stranger : string) (v : RefreshVerify) :
  JsMap.get (users s) (login_email b) = Some u ->
  compare (login_password b) (User.password u) = true ->
  set_has (set_add (refreshTokens s) refresh) stranger = false ->
  let s1 := fst (login compare s b access refresh) in
  refreshToken_handler s1 refresh (RefreshDecoded (User.id u)) access'
  = {| a_code := 200; a_body := AccessToken access' |}
  /\ (exists p, getProfile s1 (Some (User.id u))
                = {| a_code := 200; a_body := ProfileBody p |}
                /\ pv_id p = User.id u)
  /\ refreshToken_handler s1 stranger v access'
     = {| a_code := 401; a_body := AuthFailure "Invalid refresh token" |}.
Proof.
  intros Hg Hok Hno s1.
  assert (Hs1 : s1 = {| users := users s; apiKeys := apiKeys s;
                        refreshTokens := set_add (refreshTokens s) refresh;
                        hashing := hashing s |}).
  { unfold s1, login. rewrite Hg, Hok. reflexivity. }
  assert (Hfind : exists u', find_user s1 (Some (User.id u)) = Some u'
                             /\ User.id u' = User.id u).
  { rewrite Hs1. apply (find_user_finds _ (login_email b)). exact Hg. }
  destruct Hfind as (u' & Hf & Hid).
  split; [|split].
  - unfold refreshToken_handler. rewrite Hf. rewrite Hs1 at 1.
    cbn [refreshTokens]. now rewrite set_add_has.
  - unfold getProfile. rewrite Hf. eexists. split; [reflexivity|]. exact Hid.
  - unfold refreshToken_handler. rewrite Hs1 at 1. cbn [refreshTokens].
    now rewrite Hno.
Qed.

Lemma tokens_of_a_login_work_witness :
  let s1 :=
    fst (login sample_compare alice_registered
           {| login_email := "alice@example.org";
              login_password := "correct horse" |} "tok-2" "ref-2") in
  refreshToken_handler s1 "ref-2" (RefreshDecoded (User.id alice_user)) "tok-3"
  = {| a_code := 200; a_body := AccessToken "tok-3" |}
  /\ (exists p, getProfile s1 (Some (User.id alice_user))
                = {| a_code := 200; a_body := ProfileBody p |}
                /\ pv_id p = User.id alice_user)
  /\ refreshToken_handler s1 "ref-x" (RefreshDecoded "u-1") "tok-3"
     = {| a_code := 401; a_body := AuthFailure "Invalid refresh token" |}.
Proof.
  apply (tokens_of_a_login_work sample_compare alice_registered
           {| login_email := "alice@example.org";
              login_password := "correct horse" |}
           alice_user "tok-2" "ref-2" "tok-3" "ref-x" (RefreshDecoded "u-1")).
  - reflexivity.
  - reflexivity.
  - reflexivity.
Defined.

(** Who is left without an account when [users] holds, under a new email,
    the user of another registration. *)
Lemma displaced_registrant
    (compare : string -> string -> bool) (s s' : AuthState)
    (bw bl : RegisterBody) (ow ol : Issued) (e a r a' : string) :
  JsMap.get (users s) e = None ->
  users s' = JsMap.set (users s) e (registered_user bw ow) ->
  set_has (refreshTokens s') (is_refreshToken ol) = true ->
  is_uuid ol <> is_uuid ow ->
  (forall u, In u (JsMap.values (users s)) -> User.id u <> is_uuid ol) ->
  compare (reg_password bl) (is_hashedPassword ow) = false ->
  login compare s' {| login_email := e; login_password := reg_password bl |} a r
  = (s', {| a_code := 401; a_body := AuthFailure "Invalid credentials" |})
  /\ getProfile s' (Some (is_uuid ol))
     = {| a_code := 404; a_body := AuthFailure "User not found" |}
  /\ set_has (refreshTokens s') (is_refreshToken ol) = true
  /\ refreshToken_handler s' (is_refreshToken ol) (RefreshDecoded (is_uuid ol)) a'
     = {| a_code := 404; a_body := AuthFailure "User not found" |}.
Proof.
  intros Hnew Hu Hhas Hne Hids Hbad.
  assert (Hfind : find_user s' (Some (is_uuid ol)) = None).
  { unfold find_user. rewrite Hu, set_fresh by exact Hnew.
    unfold JsMap.values. rewrite map_app. cbn [map snd]. rewrite find_none_app.
    - cbn [registered_user User.id same_id].
      destruct (String.eqb_spec (is_uuid ow) (is_uuid ol)); congruence.
    - intros x Hx. specialize (Hids x Hx). cbn [same_id].
      destruct (String.eqb_spec (User.id x) (is_uuid ol)); congruence. }
  split; [|split; [|split]].
  - unfold login. cbn [login_email login_password].
    rewrite Hu, get_set_same. cbn [registered_user User.password].
    rewrite Hbad. reflexivity.
  - unfold getProfile. now rewrite Hfind.
  - exact Hhas.
  - unfold refreshToken_handler. rewrite Hhas. cbn [negb]. now rewrite Hfind.
Qed.

(** X26: what the overlap costs the registrant whose hash resolved first.
    After two overlapping registrations for the same new email (ids
    distinct and not used by another user), the registrant whose hash
    resolved first, who was answered 201, has no account, in either order
    of resolution: a login with that registrant's password is answered 401
    when [bcrypt.compare] rejects it for the other hash, [getProfile] for
    that registrant's id is answered 404, and that registrant's refresh
    token, though still in [refreshTokens], is answered 404 'User not
    found'. *)
Theorem overwritten_registrant_is_locked_out
    (compare : string -> string -> bool) (s : AuthState)
    (b1 b2 : RegisterBody) (o1 o2 : Issued) (a r a' : string) :
  JsMap.get (users s) (reg_email b1) = None ->
  reg_email b2 = reg_email b1 ->
  is_uuid o1 <> is_uuid o2 ->
  (forall u, In u (JsMap.values (users s)) ->
             User.id u <> is_uuid o1 /\ User.id u <> is_uuid o2) ->
  compare (reg_password b1) (is_hashedPassword o2) = false ->
  compare (reg_password b2) (is_hashedPassword o1) = false ->
  (exists s' rs,
     auth_run compare s
       [RegisterArrives b1; RegisterArrives b2;
        HashResolves (List.length (hashing s)) o1;
        HashResolves (List.length (hashing s)) o2]
     = Some (s', rs)
     /\ login compare s'
          {| login_email := reg_email b1; login_password := reg_password b1 |} a r
        = (s', {| a_code := 401; a_body := AuthFailure "Invalid credentials" |})
     /\ getProfile s' (Some (is_uuid o1))
        = {| a_code := 404; a_body := AuthFailure "User not found" |}
     /\ set_has (refreshTokens s') (is_refreshToken o1) = true
     /\ refreshToken_handler s' (is_refreshToken o1)
          (RefreshDecoded (is_uuid o1)) a'
        = {| a_code := 404; a_body := AuthFailure "User not found" |})
  /\ (exists s' rs,
        auth_run compare s
          [RegisterArrives b1; RegisterArrives b2;
           HashResolves (S (List.length (hashing s))) o2;
           HashResolves (List.length (hashing s)) o1]
        = Some (s', rs)
        /\ login compare s'
             {| login_email := reg_email b1; login_password := reg_password b2 |} a r
           = (s', {| a_code := 401; a_body := AuthFailure "Invalid credentials" |})
        /\ getProfile s' (Some (is_uuid o2))
           = {| a_code := 404; a_body := AuthFailure "User not found" |}
        /\ set_has (refreshTokens s') (is_refreshToken o2) = true
        /\ refreshToken_handler s' (is_refreshToken o2)
             (RefreshDecoded (is_uuid o2)) a'
           = {| a_code := 404; a_body := AuthFailure "User not found" |}).
Proof.
  intros Hnew He Hne Hids Hbad1 Hbad2. split.
  - eexists. eexists.
    split; [apply (overlap_run compare s b1 b2 o1 o2 Hnew He)|].
    apply (displaced_registrant compare s _ b2 b1 o2 o1); auto.
    + cbn [refreshTokens]. apply set_add_keeps, set_add_has.
    + intros u Hu. now apply Hids.
  - eexists. eexists.
    split; [apply (overlap_run_rev compare s b1 b2 o1 o2 Hnew He)|].
    apply (displaced_registrant compare s _ b1 b2 o1 o2); auto.
    + cbn [refreshTokens]. apply set_add_keeps, set_add_has.
    + intros u Hu. now apply Hids.
Qed.

Lemma overwritten_registrant_is_locked_out_witness :
  (exists s' rs,
     auth_run sample_compare auth_init
       [RegisterArrives alice_registers; RegisterArrives mallory_registers;
        HashResolves (List.length (hashing auth_init)) alice_issued;
        HashResolves (List.length (hashing auth_init)) mallory_issued]
     = Some (s', rs)
     /\ login sample_compare s'
          {| login_email := reg_email alice_registers;
             login_password := reg_password alice_registers |} "a" "r"
        = (s', {| a_code := 401; a_body := AuthFailure "Invalid credentials" |})
     /\ getProfile s' (Some (is_uuid alice_issued))
        = {| a_code := 404; a_body := AuthFailure "User not found" |}
     /\ set_has (refreshTokens s') (is_refreshToken alice_issued) = true
     /\ refreshToken_handler s' (is_refreshToken alice_issued)
          (RefreshDecoded (is_uuid alice_issued)) "a2"
        = {| a_code := 404; a_body := AuthFailure "User not found" |})
  /\ (exists s' rs,
        auth_run sample_compare auth_init
          [RegisterArrives alice_registers; RegisterArrives mallory_registers;
           HashResolves (S (List.length (hashing auth_init))) mallory_issued;
           HashResolves (List.length (hashing auth_init)) alice_issued]
        = Some (s', rs)
        /\ login sample_compare s'
             {| login_email := reg_email alice_registers;
                login_password := reg_password mallory_registers |} "a" "r"
           = (s', {| a_code := 401; a_body := AuthFailure "Invalid credentials" |})
        /\ getProfile s' (Some (is_uuid mallory_issued))
           = {| a_code := 404; a_body := AuthFailure "User not found" |}
        /\ set_has (refreshTokens s') (is_refreshToken mallory_issued) = true
        /\ refreshToken_handler s' (is_refreshToken mallory_issued)
             (RefreshDecoded (is_uuid mallory_issued)) "a2"
           = {| a_code := 404; a_body := AuthFailure "User not found" |}).
Proof.
  apply (overwritten_registrant_is_locked_out sample_compare auth_init
           alice_registers mallory_registers alice_issued mallory_issued
           "a" "r" "a2").
  - reflexivity.
  - reflexivity.
  - discriminate.
  - simpl. intros u [].
  - reflexivity.
  - reflexivity.
Defined.
